(** * gerritlab: merge requests, their dependency chain and the remote client

    A shallow embedding of [gerritlab/merge_request.py]: the class
    [MergeRequest] with its methods [create], [update], [rebase], [merge],
    [delete], [get_commits], [needs_update], [refresh], [wait_until_stable],
    the three setters and [save], and the functions
    [_get_open_merge_requests] and [get_merge_request_chain]; with the
    globals of [gerritlab/global_vars.py] that they read.  The properties of
    the specification are then proved, or refuted, on that embedding.

    Conventions of the embedding.
    - A Python [str] is a [string]; each [ascii] is read as a code point
      below 256.  [Optional[str]] is [option string], [None] is [None].
    - A [MergeRequest] object is a record of its attributes.  Methods that
      mutate the object or talk to the remote are programs of the monad
      [prog]: they thread the object and the [world] (the replies the remote
      will give, the log of what the program did), and they end by returning,
      by raising, or blocked on a request that the script has no reply for.
    - The HTTP session of [requests] is an oracle: every request is logged
      and answered by the next scripted [reply].  A program is deterministic,
      so a statement over all scripts is one over all remotes.
    - [time.sleep] and [print] are logged as events. *)

From Stdlib Require Import Ascii String ZArith Lia.
From stdpp Require Import base strings list gmap pretty.

Open Scope string_scope.
Open Scope list_scope.
Open Scope nat_scope.

(** ** Python strings *)

Module Py.

(** [str.isspace] on one character, for the code points below 256:
    U+0009..U+000D, U+001C..U+0020, U+0085 and U+00A0. *)
Definition isspace (c : ascii) : bool :=
  let n := nat_of_ascii c in
  ((9 <=? n)%nat && (n <=? 13)%nat)
  || ((28 <=? n)%nat && (n <=? 32)%nat)
  || (n =? 133)%nat || (n =? 160)%nat.

Fixpoint lstrip (s : string) : string :=
  match s with
  | EmptyString => EmptyString
  | String c r => if isspace c then lstrip r else s
  end.

Fixpoint rstrip (s : string) : string :=
  match s with
  | EmptyString => EmptyString
  | String c r =>
      match rstrip r with
      | EmptyString => if isspace c then EmptyString else String c EmptyString
      | r' => String c r'
      end
  end.

(** [s.strip()] *)
Definition strip (s : string) : string := rstrip (lstrip s).

(** The part of [s] before its last ["-"], when it has one. *)
Fixpoint before_last_dash (s : string) : option string :=
  match s with
  | EmptyString => None
  | String c r =>
      match before_last_dash r with
      | Some p => Some (String c p)
      | None => if Ascii.eqb c "-" then Some EmptyString else None
      end
  end.

(** [s.rsplit("-", 1)[0]] *)
Definition rsplit_dash_head (s : string) : string :=
  default s (before_last_dash s).

(** ["{}".format(x)] for an [Optional[str]] *)
Definition format_opt (x : option string) : string := default "None" x.

End Py.

(** ** The MergeRequest object *)

(** The attributes of [class MergeRequest].  [_remote] is the name of the git
    remote.  [_sha] is not set by [__init__]: the attribute exists once
    [_set_data] saw the key [sha].  It is [None] here while the attribute is
    absent, and [Some v] once it holds [v], which may be Python's [None]. *)
Record MergeRequest := {
  _remote : string;
  _source_branch : string;
  _target_branch : option string;
  _title : option string;
  _description : option string;
  _iid : option string;
  _web_url : option string;
  _mergeable : bool;
  _local_branch : string;
  _needs_save : bool;
  _sha : option (option string);
}.

#[global] Instance MergeRequest_eq_dec : EqDecision MergeRequest.
Proof. solve_decision. Defined.

(** The properties [mergeable], [source_branch] and [target_branch]. *)
Definition mergeable (mr : MergeRequest) : bool := _mergeable mr.
Definition source_branch (mr : MergeRequest) : string := _source_branch mr.
Definition target_branch (mr : MergeRequest) : option string := _target_branch mr.

(** Attribute assignment, [self._x = v]. *)
Definition with_remote (v : string) (mr : MergeRequest) : MergeRequest :=
  {| _remote := v; _source_branch := _source_branch mr;
     _target_branch := _target_branch mr; _title := _title mr;
     _description := _description mr; _iid := _iid mr; _web_url := _web_url mr;
     _mergeable := _mergeable mr; _local_branch := _local_branch mr;
     _needs_save := _needs_save mr; _sha := _sha mr |}.

Definition with_source_branch (v : string) (mr : MergeRequest) : MergeRequest :=
  {| _remote := _remote mr; _source_branch := v;
     _target_branch := _target_branch mr; _title := _title mr;
     _description := _description mr; _iid := _iid mr; _web_url := _web_url mr;
     _mergeable := _mergeable mr; _local_branch := _local_branch mr;
     _needs_save := _needs_save mr; _sha := _sha mr |}.

Definition with_target_branch (v : option string) (mr : MergeRequest) : MergeRequest :=
  {| _remote := _remote mr; _source_branch := _source_branch mr;
     _target_branch := v; _title := _title mr;
     _description := _description mr; _iid := _iid mr; _web_url := _web_url mr;
     _mergeable := _mergeable mr; _local_branch := _local_branch mr;
     _needs_save := _needs_save mr; _sha := _sha mr |}.

Definition with_title (v : option string) (mr : MergeRequest) : MergeRequest :=
  {| _remote := _remote mr; _source_branch := _source_branch mr;
     _target_branch := _target_branch mr; _title := v;
     _description := _description mr; _iid := _iid mr; _web_url := _web_url mr;
     _mergeable := _mergeable mr; _local_branch := _local_branch mr;
     _needs_save := _needs_save mr; _sha := _sha mr |}.

Definition with_description (v : option string) (mr : MergeRequest) : MergeRequest :=
  {| _remote := _remote mr; _source_branch := _source_branch mr;
     _target_branch := _target_branch mr; _title := _title mr;
     _description := v; _iid := _iid mr; _web_url := _web_url mr;
     _mergeable := _mergeable mr; _local_branch := _local_branch mr;
     _needs_save := _needs_save mr; _sha := _sha mr |}.

Definition with_iid (v : option string) (mr : MergeRequest) : MergeRequest :=
  {| _remote := _remote mr; _source_branch := _source_branch mr;
     _target_branch := _target_branch mr; _title := _title mr;
     _description := _description mr; _iid := v; _web_url := _web_url mr;
     _mergeable := _mergeable mr; _local_branch := _local_branch mr;
     _needs_save := _needs_save mr; _sha := _sha mr |}.

Definition with_web_url (v : option string) (mr : MergeRequest) : MergeRequest :=
  {| _remote := _remote mr; _source_branch := _source_branch mr;
     _target_branch := _target_branch mr; _title := _title mr;
     _description := _description mr; _iid := _iid mr; _web_url := v;
     _mergeable := _mergeable mr; _local_branch := _local_branch mr;
     _needs_save := _needs_save mr; _sha := _sha mr |}.

Definition with_mergeable (v : bool) (mr : MergeRequest) : MergeRequest :=
  {| _remote := _remote mr; _source_branch := _source_branch mr;
     _target_branch := _target_branch mr; _title := _title mr;
     _description := _description mr; _iid := _iid mr; _web_url := _web_url mr;
     _mergeable := v; _local_branch := _local_branch mr;
     _needs_save := _needs_save mr; _sha := _sha mr |}.

Definition with_local_branch (v : string) (mr : MergeRequest) : MergeRequest :=
  {| _remote := _remote mr; _source_branch := _source_branch mr;
     _target_branch := _target_branch mr; _title := _title mr;
     _description := _description mr; _iid := _iid mr; _web_url := _web_url mr;
     _mergeable := _mergeable mr; _local_branch := v;
     _needs_save := _needs_save mr; _sha := _sha mr |}.

Definition with_needs_save (v : bool) (mr : MergeRequest) : MergeRequest :=
  {| _remote := _remote mr; _source_branch := _source_branch mr;
     _target_branch := _target_branch mr; _title := _title mr;
     _description := _description mr; _iid := _iid mr; _web_url := _web_url mr;
     _mergeable := _mergeable mr; _local_branch := _local_branch mr;
     _needs_save := v; _sha := _sha mr |}.

Definition with_sha (v : option (option string)) (mr : MergeRequest) : MergeRequest :=
  {| _remote := _remote mr; _source_branch := _source_branch mr;
     _target_branch := _target_branch mr; _title := _title mr;
     _description := _description mr; _iid := _iid mr; _web_url := _web_url mr;
     _mergeable := _mergeable mr; _local_branch := _local_branch mr;
     _needs_save := _needs_save mr; _sha := v |}.

(** ** The chain builder, [get_merge_request_chain] *)

(** [mr.target_branch not in source_branches], the test that makes [mr] a
    root; [source_branches] is a set of [str], so [None] is never in it. *)
Definition not_in_source_branches (source_branches : gset string)
    (mr : MergeRequest) : Prop :=
  match target_branch mr with
  | Some t => t ∉ source_branches
  | None => True
  end.

#[global] Instance not_in_source_branches_dec sb mr :
  Decision (not_in_source_branches sb mr).
Proof. unfold not_in_source_branches. destruct (target_branch mr); apply _. Defined.

(** [set([mr.source_branch for mr in mrs])] *)
Definition source_branches (mrs : list MergeRequest) : gset string :=
  list_to_set (source_branch <$> mrs).

(** The loop that collects [roots]. *)
Definition roots (mrs : list MergeRequest) : list MergeRequest :=
  filter (not_in_source_branches (source_branches mrs)) mrs.

(** [{mr.target_branch: mr for mr in mrs}]: a later MR replaces an earlier
    one with the same target. *)
Definition mrs_dict (mrs : list MergeRequest) : gmap (option string) MergeRequest :=
  foldl (λ d mr, <[target_branch mr := mr]> d) ∅ mrs.

(** The inner recursion.  [depth] bounds the number of nested calls (the
    interpreter's recursion limit); [None] is a recursion that does not end
    within it. *)
Fixpoint get_merge_request_chain_inner (depth : nat)
    (mrs : gmap (option string) MergeRequest) (root : MergeRequest)
    : option (list MergeRequest) :=
  match depth with
  | O => None
  | S depth' =>
      match mrs !! Some (source_branch root) with
      | None => Some [root]
      | Some next_mr =>
          rest ← get_merge_request_chain_inner depth' mrs next_mr;
          Some (root :: rest)
      end
  end.

(** [for root in roots: mr_chain.extend(inner(mrs_dict, root))] *)
Fixpoint extend_chains (depth : nat) (d : gmap (option string) MergeRequest)
    (rs : list MergeRequest) (mr_chain : list MergeRequest)
    : option (list MergeRequest) :=
  match rs with
  | [] => Some mr_chain
  | root :: rs' =>
      c ← get_merge_request_chain_inner depth d root;
      extend_chains depth d rs' (mr_chain ++ c)
  end.

Definition get_merge_request_chain (depth : nat) (mrs : list MergeRequest)
    : option (list MergeRequest) :=
  if decide (length mrs = 0) then Some []
  else extend_chains depth (mrs_dict mrs) (roots mrs) [].

(** A small constructor for examples: an MR as [__init__] leaves it when
    given the two branches. *)
Definition mk_mr (source target : string) : MergeRequest :=
  {| _remote := "origin"; _source_branch := source;
     _target_branch := Some target; _title := None; _description := None;
     _iid := None; _web_url := None; _mergeable := false;
     _local_branch := Py.rsplit_dash_head source; _needs_save := false;
     _sha := None |}.

(** [c] is a chain: every element targets the source branch of the one
    before it. *)
Fixpoint linked (c : list MergeRequest) : Prop :=
  match c with
  | a :: (b :: _) as t => target_branch b = Some (source_branch a) ∧ linked t
  | _ => True
  end.

(** [c] is the linked list of a root of [mrs]: it starts at an MR whose
    target is no member's source branch, and is a chain. *)
Definition rooted_chain (mrs : list MergeRequest) (c : list MergeRequest) : Prop :=
  ∃ r rest, c = r :: rest
    ∧ not_in_source_branches (source_branches mrs) r
    ∧ linked c.

(** The chain the inner recursion gives from [r], empty when it gives none. *)
Definition chain_from (depth : nat) (d : gmap (option string) MergeRequest)
    (r : MergeRequest) : list MergeRequest :=
  default [] (get_merge_request_chain_inner depth d r).

(** The last MR of the input whose target is [k]. *)
Definition last_targeting (mrs : list MergeRequest) (k : option string)
    : option MergeRequest :=
  last (filter (λ m, target_branch m = k) mrs).

(** [c] goes from each element to the last MR of [mrs] that targets its
    source branch, and stops where no MR does. *)
Fixpoint follows (mrs : list MergeRequest) (c : list MergeRequest) : Prop :=
  match c with
  | [] => True
  | a :: t =>
      last_targeting mrs (Some (source_branch a)) = head t ∧ follows mrs t
  end.

(** The path the recursion has followed, most recent first. *)
Inductive walk (mrs : list MergeRequest) : list MergeRequest → Prop :=
| walk_root r :
    r ∈ mrs → not_in_source_branches (source_branches mrs) r → walk mrs [r]
| walk_step y x seen :
    walk mrs (x :: seen) → y ∈ mrs →
    target_branch y = Some (source_branch x) → walk mrs (y :: x :: seen).

(** ** Commits *)

(** The commit wrapper the callers pass: [commit.commit] is the git commit
    (its [message] and [hexsha]), [source_branch] and [target_branch] are the
    labels derived from the commit's place in the stack. *)
Module Commit.
Record git_commit := { message : string; hexsha : string }.
Record t := {
  commit : git_commit;
  source_branch : string;
  target_branch : string;
}.
End Commit.

(** ** The remote: requests, replies and what a program does *)

(** The [data] dict of a POST or PUT; [create] adds [remove_source_branch],
    [update] does not. *)
Record form := {
  form_source_branch : string;
  form_target_branch : option string;
  form_title : option string;
  form_description : option string;
  form_remove_source_branch : option bool;
}.

(** One key of a decoded JSON object with its value.  The keys that set an
    attribute the code reads carry a value of the attribute's declared type;
    any other key sets an attribute that nothing reads. *)
Inductive attr :=
| a_remote (v : string)
| a_source_branch (v : string)
| a_target_branch (v : option string)
| a_title (v : option string)
| a_description (v : option string)
| a_iid (v : option string)
| a_web_url (v : option string)
| a_mergeable (v : bool)
| a_local_branch (v : string)
| a_needs_save (v : bool)
| a_sha (v : option string)
| a_other (key : string) (v : string).

(** A decoded JSON object: its items in order. *)
Definition json_data : Type := list attr.

(** What [Response.json()] returns: an object or an array of objects. *)
Inductive json :=
| JObject (d : json_data)
| JArray (l : list json_data).

Inductive exit_arg :=
| ExitCode (n : Z)
  (** ["Error creating merge request for {} → {}\n{}\n{}".format(source,
      target, e, data)]: the two branches, the status of the HTTP error [e]
      and [data], which is the request's dict or the decoded body. *)
| ErrorCreating (source : string) (target : option string) (e_status : Z)
    (data : form + json).

Inductive exn :=
| ValueError (msg : string)
| AttributeError
| KeyError (key : string)
| TypeError
| JSONDecodeError
| HTTPError (status : Z)
| InvalidHeader
| ConnectionError
| SystemExit (arg : exit_arg).

(** [body] is [None] when the body does not decode as JSON. *)
Record response := {
  status_code : Z;
  body : option json;
}.

(** What the session does with a request: it returns a response, or raises. *)
Inductive reply :=
| Resp (r : response)
| Fails (e : exn).

Inductive method := GET | POST | PUT | DELETE.

Inductive event :=
| Request (m : method) (url : string) (data : option form)
| Sleep (ms : nat)
| Print (e : exn)
| Push (remote : string) (refspec : string).

(** The globals of [global_vars] the code reads, the replies the remote will
    give to the next requests, and what the program has done so far. *)
Record world := {
  mr_url : string;
  remove_source_branch : bool;
  pending : list reply;
  log : list event;
}.

Definition with_pending (rs : list reply) (w : world) : world :=
  {| mr_url := mr_url w; remove_source_branch := remove_source_branch w;
     pending := rs; log := log w |}.

Definition emit (e : event) (w : world) : world :=
  {| mr_url := mr_url w; remove_source_branch := remove_source_branch w;
     pending := pending w; log := log w ++ [e] |}.

(** How a program ends: it returns, it raises, or it is blocked on a request
    for which the script holds no reply. *)
Inductive outcome (A : Type) :=
| Returned (a : A)
| Raised (e : exn)
| Blocked.
Arguments Returned {A} a.
Arguments Raised {A} e.
Arguments Blocked {A}.

Definition prog (St A : Type) : Type := St → outcome A * St.

#[global] Instance prog_ret {St} : MRet (prog St) := λ A a s, (Returned a, s).

#[global] Instance prog_bind {St} : MBind (prog St) := λ A B f p s,
  match p s with
  | (Returned a, s') => f a s'
  | (Raised e, s') => (Raised e, s')
  | (Blocked, s') => (Blocked, s')
  end.

Definition raise {St A} (e : exn) : prog St A := λ s, (Raised e, s).

(** [try: p  except ...: h]; [h e] is [None] when no clause catches [e]. *)
Definition try_except {St A} (p : prog St A) (h : exn → option (prog St A))
    : prog St A := λ s,
  match p s with
  | (Raised e, s') =>
      match h e with
      | Some handler => handler s'
      | None => (Raised e, s')
      end
  | r => r
  end.

(** States that hold a [world]. *)
Class Net (St : Type) := { net : St → world; set_net : world → St → St }.

#[global] Instance world_net : Net world :=
  {| net := λ w, w; set_net := λ w _, w |}.

(** The state of a method: [self] and the world. *)
#[global] Instance self_net : Net (MergeRequest * world) :=
  {| net := snd; set_net := λ w s, (fst s, w) |}.

Definition globals {St} `{Net St} : prog St world := λ s, (Returned (net s), s).

Definition do_event {St} `{Net St} (e : event) : prog St unit :=
  λ s, (Returned tt, set_net (emit e (net s)) s).

(** [time.sleep] and [print] *)
Definition sleep {St} `{Net St} (ms : nat) : prog St unit := do_event (Sleep ms).
Definition print {St} `{Net St} (e : exn) : prog St unit := do_event (Print e).

(** [global_vars.session.<method>(url, data=data)] *)
Definition request {St} `{Net St} (m : method) (url : string) (data : option form)
    : prog St response := λ s,
  let w := emit (Request m url data) (net s) in
  match pending w with
  | [] => (Blocked, set_net w s)
  | Resp r :: rest => (Returned r, set_net (with_pending rest w) s)
  | Fails e :: rest => (Raised e, set_net (with_pending rest w) s)
  end.

(** [r.raise_for_status()] of [requests]: an [HTTPError] for a status from
    400 to 599. *)
Definition is_error_status (status : Z) : bool :=
  ((400 <=? status) && (status <? 600))%Z.

Definition raise_for_status {St} (r : response) : prog St unit :=
  if is_error_status (status_code r) then raise (HTTPError (status_code r))
  else mret tt.

(** [r.json()] *)
Definition json_of {St} (r : response) : prog St json :=
  match body r with
  | Some j => mret j
  | None => raise JSONDecodeError
  end.

(** [requests.codes.ok] *)
Definition codes_ok : Z := 200.

(** [while True: body], with the variables [v] the loop carries: the body
    says whether to go round again ([inl]) or to leave with a result
    ([inr]).  Every loop of the source issues a request each time round, so
    a loop that has not ended after one more round than there are replies is
    blocked. *)
Fixpoint iterate {St V A} (n : nat) (body : V → prog St (V + A)) (v : V)
    : prog St A :=
  match n with
  | O => λ s, (Blocked, s)
  | S n' =>
      x ← body v;
      match x with
      | inl v' => iterate n' body v'
      | inr a => mret a
      end
  end.

Definition while_true {St V A} `{Net St} (body : V → prog St (V + A)) (v : V)
    : prog St A :=
  λ s, iterate (S (length (pending (net s)))) body v s.

(** ** The methods of MergeRequest *)

Definition get_self : prog (MergeRequest * world) MergeRequest :=
  λ s, (Returned (fst s), s).

Definition modify_self (f : MergeRequest → MergeRequest)
    : prog (MergeRequest * world) unit :=
  λ s, (Returned tt, (f (fst s), snd s)).

Definition set_attr (a : attr) (mr : MergeRequest) : MergeRequest :=
  match a with
  | a_remote v => with_remote v mr
  | a_source_branch v => with_source_branch v mr
  | a_target_branch v => with_target_branch v mr
  | a_title v => with_title v mr
  | a_description v => with_description v mr
  | a_iid v => with_iid v mr
  | a_web_url v => with_web_url v mr
  | a_mergeable v => with_mergeable v mr
  | a_local_branch v => with_local_branch v mr
  | a_needs_save v => with_needs_save v mr
  | a_sha v => with_sha (Some v) mr
  | a_other _ _ => mr
  end.

(** [_set_data(json_data)] on an object.  Iterating a non-empty array gives
    its elements, which are no attribute names of a list: a [TypeError]. *)
Definition _set_data (json_data : option json)
    : prog (MergeRequest * world) unit :=
  match json_data with
  | None => mret tt
  | Some (JObject d) => modify_self (λ mr, foldl (λ m a, set_attr a m) mr d)
  | Some (JArray []) => mret tt
  | Some (JArray (_ :: _)) => raise TypeError
  end;;
  modify_self (λ mr,
    with_local_branch (Py.rsplit_dash_head (_source_branch mr)) mr).

(** The value of a key in a decoded object, if the object has the key. *)
Definition lookup_iid (d : json_data) : option (option string) :=
  last (omap (λ a, if a is a_iid v then Some v else None) d).

Definition lookup_web_url (d : json_data) : option (option string) :=
  last (omap (λ a, if a is a_web_url v then Some v else None) d).

Definition lookup_sha (d : json_data) : option (option string) :=
  last (omap (λ a, if a is a_sha v then Some v else None) d).

(** [data[key]] for the two keys the code reads. *)
Definition getitem_iid {St} (data : json) : prog St (option string) :=
  match data with
  | JObject d =>
      match lookup_iid d with
      | Some v => mret v
      | None => raise (KeyError "iid")
      end
  | JArray _ => raise TypeError
  end.

Definition getitem_web_url {St} (data : json) : prog St (option string) :=
  match data with
  | JObject d =>
      match lookup_web_url d with
      | Some v => mret v
      | None => raise (KeyError "web_url")
      end
  | JArray _ => raise TypeError
  end.

(** ["{}/{}".format(global_vars.mr_url, self._iid)] *)
Definition iid_url (w : world) (mr : MergeRequest) : string :=
  mr_url w +:+ "/" +:+ Py.format_opt (_iid mr).

(** The handler of [create]: [except HTTPError as e: raise SystemExit(...)]
    with the [data] it sees. *)
Definition create_failed {A} (self : MergeRequest) (data : form + json)
    (e : exn) : option (prog (MergeRequest * world) A) :=
  match e with
  | HTTPError st =>
      Some (raise (SystemExit
        (ErrorCreating (_source_branch self) (_target_branch self) st data)))
  | _ => None
  end.

(** [create].  The [try] block is written as its three statements, each
    under the handler with the [data] that the source's handler would see
    there: the request's dict until [data = r.json()], the decoded body
    after.  [r.json()] raises no [HTTPError], so it needs no handler. *)
Definition create : prog (MergeRequest * world) unit :=
  self ← get_self;
  g ← globals;
  let data :=
    {| form_source_branch := _source_branch self;
       form_target_branch := _target_branch self;
       form_title := _title self;
       form_description := _description self;
       form_remove_source_branch := Some (remove_source_branch g) |} in
  r ← try_except (request POST (mr_url g) (Some data))
                 (create_failed self (inl data));
  data ← json_of r;
  try_except (raise_for_status r) (create_failed self (inr data));;
  iid ← getitem_iid data;
  modify_self (with_iid iid);;
  web_url ← getitem_web_url data;
  modify_self (with_web_url web_url).

Definition update (source_branch target_branch title description : option string)
    : prog (MergeRequest * world) unit :=
  (if source_branch is Some v then modify_self (with_source_branch v) else mret tt);;
  (if target_branch is Some v then modify_self (with_target_branch (Some v)) else mret tt);;
  (if title is Some v then modify_self (with_title (Some v)) else mret tt);;
  (if description is Some v then modify_self (with_description (Some v)) else mret tt);;
  self ← get_self;
  g ← globals;
  let data :=
    {| form_source_branch := _source_branch self;
       form_target_branch := _target_branch self;
       form_title := _title self;
       form_description := _description self;
       form_remove_source_branch := None |} in
  r ← request PUT (iid_url g self) (Some data);
  raise_for_status r;;
  data ← json_of r;
  iid ← getitem_iid data;
  modify_self (with_iid iid);;
  web_url ← getitem_web_url data;
  modify_self (with_web_url web_url).

Definition rebase : prog (MergeRequest * world) unit :=
  self ← get_self;
  g ← globals;
  r ← request PUT (iid_url g self +:+ "/rebase") None;
  raise_for_status r.

(** One round of the loop of [merge]: [inr] is [break]. *)
Definition merge_attempt (url : string) (_ : unit)
    : prog (MergeRequest * world) (unit + unit) :=
  r ← request PUT url None;
  if decide (status_code r = codes_ok) then mret (inr tt)
  else sleep 2000;; mret (inl tt).

Definition merge : prog (MergeRequest * world) unit :=
  self ← get_self;
  g ← globals;
  if _iid self is None then raise (ValueError "Must set iid before merging an MR!")
  else
    let url := iid_url g self +:+ "/merge" in
    while_true (merge_attempt url) tt.

Definition delete (delete_source_branch : bool) : prog (MergeRequest * world) unit :=
  self ← get_self;
  g ← globals;
  if _iid self is None then raise (ValueError "Must set iid before deleting an MR!")
  else
    r ← request DELETE (iid_url g self) None;
    raise_for_status r;;
    if delete_source_branch
    then do_event (Push (_remote self) (":" +:+ _source_branch self))
    else mret tt.

Definition get_commits : prog (MergeRequest * world) json :=
  self ← get_self;
  g ← globals;
  r ← request GET (iid_url g self +:+ "/commits") None;
  raise_for_status r;;
  json_of r.

Definition refresh : prog (MergeRequest * world) unit :=
  self ← get_self;
  g ← globals;
  r ← request GET (iid_url g self) None;
  raise_for_status r;;
  data ← json_of r;
  _set_data (Some data).

(** One round of the loop of [wait_until_stable]: [inr] is [return].
    Reading [self._sha] while the attribute is absent is an
    [AttributeError]. *)
Definition poll_once (commit : Commit.t) (_ : unit)
    : prog (MergeRequest * world) (unit + unit) :=
  refresh;;
  self ← get_self;
  match _sha self with
  | None => raise AttributeError
  | Some sha =>
      if decide (sha = Some (Commit.hexsha (Commit.commit commit)))
      then mret (inr tt)
      else sleep 500;; mret (inl tt)
  end.

Definition wait_until_stable (commit : Commit.t) : prog (MergeRequest * world) unit :=
  while_true (poll_once commit) tt.

Definition set_target_branch (target_branch : option string)
    : prog (MergeRequest * world) unit :=
  self ← get_self;
  if decide (_target_branch self ≠ target_branch) then
    modify_self (with_target_branch target_branch);;
    modify_self (with_needs_save true)
  else mret tt.

Definition set_title (title : option string) : prog (MergeRequest * world) unit :=
  self ← get_self;
  if decide (_title self ≠ title) then
    modify_self (with_title title);;
    modify_self (with_needs_save true)
  else mret tt.

(** [None.strip()] is an [AttributeError]. *)
Definition set_desc (desc : option string) : prog (MergeRequest * world) unit :=
  self ← get_self;
  match _description self, desc with
  | Some mine, Some theirs =>
      if decide (Py.strip mine ≠ Py.strip theirs) then
        modify_self (with_description desc);;
        modify_self (with_needs_save true)
      else mret tt
  | _, _ => raise AttributeError
  end.

Definition save : prog (MergeRequest * world) bool :=
  self ← get_self;
  saved ← (if _needs_save self then update None None None None;; mret true
           else mret false);
  modify_self (with_needs_save false);;
  mret saved.

(** [needs_update]; [utils.get_msg_title_description] is not among the
    sources and is a parameter. *)
Definition needs_update
    (get_msg_title_description : string → string * string)
    (self : MergeRequest) (commit : Commit.t) : bool :=
  let '(title, desc) :=
    get_msg_title_description (Commit.message (Commit.commit commit)) in
  bool_decide (_source_branch self ≠ Commit.source_branch commit)
  || bool_decide (_target_branch self ≠ Some (Commit.target_branch commit))
  || bool_decide (_title self ≠ Some title)
  || bool_decide (_description self ≠ Some (Py.strip desc)).

(** Modelled from the spec: [utils.get_msg_title_description] is missing
    from the sources.  The spec has the title as the first line of the
    commit message and the description as the remainder, trimmed of leading
    and trailing whitespace; a message with no body has an empty
    description. *)
Fixpoint split_first_line (msg : string) : string * string :=
  match msg with
  | EmptyString => (EmptyString, EmptyString)
  | String c r =>
      if Ascii.eqb c "010" then (EmptyString, r)
      else let '(t, d) := split_first_line r in (String c t, d)
  end.

Definition get_msg_title_description (msg : string) : string * string :=
  let '(title, rest) := split_first_line msg in (title, Py.strip rest).

(** ** Listing the open merge requests *)

Definition list_url (w : world) (page per_page : nat) : string :=
  mr_url w +:+ "?state=opened&page=" +:+ pretty page +:+ "&per_page="
    +:+ pretty per_page +:+ "&scope=created_by_me".

(** [not next_page.json()] *)
Definition falsy (j : json) : bool :=
  match j with
  | JObject [] | JArray [] => true
  | _ => false
  end.

(** One round of the loop of [_get_open_merge_requests], on the loop's
    variables [page] and [results]: [inr] is [break]. *)
Definition fetch_page (per_page : nat) '((page, results) : nat * list response)
    : prog world (nat * list response + list response) :=
  g ← globals;
  next_page ← try_except
    (next_page ← request GET (list_url g page per_page) None;
     raise_for_status next_page;;
     mret next_page)
    (λ e, match e with
          | HTTPError _ | InvalidHeader =>
              Some (print e;; raise (SystemExit (ExitCode 1)))
          | _ => None
          end);
  j ← json_of next_page;
  if falsy j then mret (inr results)
  else mret (inl (page + 1, results ++ [next_page])).

Definition _get_open_merge_requests : prog world (list response) :=
  let page := 1 in
  let per_page := 50 in
  let results := [] in
  while_true (fetch_page per_page) (page, results).

(** ** Vocabulary of the statements *)

(** The dict [update] sends for an MR. *)
Definition update_data (mr : MergeRequest) : form :=
  {| form_source_branch := _source_branch mr;
     form_target_branch := _target_branch mr;
     form_title := _title mr;
     form_description := _description mr;
     form_remove_source_branch := None |}.

(** The dict [create] sends for an MR. *)
Definition create_data (w : world) (mr : MergeRequest) : form :=
  {| form_source_branch := _source_branch mr;
     form_target_branch := _target_branch mr;
     form_title := _title mr;
     form_description := _description mr;
     form_remove_source_branch := Some (remove_source_branch w) |}.

(** [self._x = x] for each override of [update] that is not [None]. *)
Definition overridden (source_branch target_branch title description : option string)
    (mr : MergeRequest) : MergeRequest :=
  let mr := if source_branch is Some v then with_source_branch v mr else mr in
  let mr := if target_branch is Some v then with_target_branch (Some v) mr else mr in
  let mr := if title is Some v then with_title (Some v) mr else mr in
  if description is Some v then with_description (Some v) mr else mr.

(** The world once the program has sent a request and taken its reply. *)
Definition answered (e : event) (w : world) : world :=
  with_pending (tail (pending w)) (emit e w).

(** The world once the program has done [es]. *)
Definition emit_all (es : list event) (w : world) : world :=
  {| mr_url := mr_url w; remove_source_branch := remove_source_branch w;
     pending := pending w; log := log w ++ es |}.

(** What a retry loop does: each request of [failed] and a sleep of [ms]
    milliseconds after it, then the request [final], and nothing after it. *)
Definition attempts (ms : nat) (failed : list event) (final : event) : list event :=
  mjoin ((λ req, [req; Sleep ms]) <$> failed) ++ [final].

(** The object once [_set_data] has taken the items of a decoded object. *)
Definition refreshed (d : json_data) (mr : MergeRequest) : MergeRequest :=
  let mr' := foldl (λ m a, set_attr a m) mr d in
  with_local_branch (Py.rsplit_dash_head (_source_branch mr')) mr'.
Arguments refreshed : simpl never.

(** [e] is a GET with no data. *)
Definition is_get (e : event) : Prop :=
  match e with
  | Request GET _ None => True
  | _ => False
  end.

(** A response of the remote that reports the sha [sha] for the MR: its
    status is no error and its body is an object with the key [sha]. *)
Definition reports_sha (sha : string) (r : response) : Prop :=
  is_error_status (status_code r) = false
  ∧ ∃ d, body r = Some (JObject d) ∧ lookup_sha d = Some (Some sha).

(** A response that reports some sha other than [sha]. *)
Definition reports_other_sha (sha : string) (r : response) : Prop :=
  ∃ sha', sha' ≠ sha ∧ reports_sha sha' r.

(** A page of the listing that makes the loop go on: its status is no
    error and its body decodes to a collection that is not empty. *)
Definition nonempty_page (r : response) : bool :=
  negb (is_error_status (status_code r))
  && match body r with
     | Some j => negb (falsy j)
     | None => false
     end.

(** The exceptions that the [except] clause of the listing catches. *)
Definition listing_catches (e : exn) : bool :=
  match e with
  | HTTPError _ | InvalidHeader => true
  | _ => false
  end.

(** The requests for the pages [first], [first + 1], ... ([n] of them). *)
Definition page_requests (w : world) (first n : nat) : list event :=
  (λ page, Request GET (list_url w page 50) None) <$> seq first n.

(** A world for examples. *)
Definition example_world (rs : list reply) : world :=
  {| mr_url := "https://gitlab.example/api/v4/projects/1/merge_requests";
     remove_source_branch := false; pending := rs; log := [] |}.

(** ** The constructor and the callers of the listing *)

(** [s.startswith(prefix)] *)
Definition startswith (s prefix : string) : bool := String.prefix prefix s.

Definition lookup_source_branch (d : json_data) : option string :=
  last (omap (λ a, if a is a_source_branch v then Some v else None) d).

(** The object as [__init__] has it just before it calls [_set_data].  The
    record holds a [str] for [_source_branch]: while the argument is [None]
    the empty string stands in for it, and [source_is_set] below says whether
    the attribute holds a [str] once [_set_data] has run its loop. *)
Definition fresh (remote : string)
    (source_branch target_branch title description : option string)
    : MergeRequest :=
  {| _remote := remote; _source_branch := default "" source_branch;
     _target_branch := target_branch; _title := title;
     _description := description; _iid := None; _web_url := None;
     _mergeable := false; _local_branch := ""; _needs_save := false;
     _sha := None |}.

(** [self._source_branch] is a [str] after the loop of [_set_data]: it was
    given to [__init__], or the data has the key. *)
Definition source_is_set (source_branch : option string)
    (json_data : option json) : bool :=
  match source_branch, json_data with
  | Some _, _ => true
  | None, Some (JObject d) => bool_decide (is_Some (lookup_source_branch d))
  | None, _ => false
  end.

(** [MergeRequest(remote, source_branch, target_branch, title, description,
    json_data)].  The last line of [_set_data] calls [rsplit] on
    [self._source_branch]: an [AttributeError] when that is still [None]. *)
Definition __init__ (remote : string)
    (source_branch target_branch title description : option string)
    (json_data : option json) : prog world MergeRequest := λ w,
  let self := fresh remote source_branch target_branch title description in
  match _set_data json_data (self, w) with
  | (Returned _, (self, w)) =>
      if source_is_set source_branch json_data then (Returned self, w)
      else (Raised AttributeError, w)
  | (Raised e, (_, w)) => (Raised e, w)
  | (Blocked, (_, w)) => (Blocked, w)
  end.

(** [mr["source_branch"]] on an item of a page. *)
Definition getitem_source_branch {St} (mr : json_data) : prog St string :=
  match lookup_source_branch mr with
  | Some v => mret v
  | None => raise (KeyError "source_branch")
  end.

(** The items that [for mr in r.json()] goes through.  Iterating an object
    gives its keys, and [key["source_branch"]] on such a [str], the first
    thing the loop body does, is a [TypeError]. *)
Definition page_items {St} (j : json) : prog St (list json_data) :=
  match j with
  | JArray l => mret l
  | JObject [] => mret []
  | JObject (_ :: _) => raise TypeError
  end.

(** The inner loop of [get_merge_request]: [Some] is its [return]. *)
Fixpoint find_in_items (remote branch : string) (items : list json_data)
    : prog world (option MergeRequest) :=
  match items with
  | [] => mret None
  | mr :: items' =>
      sb ← getitem_source_branch mr;
      if decide (sb = branch) then
        found ← __init__ remote None None None None (Some (JObject mr));
        mret (Some found)
      else find_in_items remote branch items'
  end.

(** The outer loop of [get_merge_request]. *)
Fixpoint find_in_pages (remote branch : string) (pages : list response)
    : prog world (option MergeRequest) :=
  match pages with
  | [] => mret None
  | r :: pages' =>
      j ← json_of r;
      items ← page_items j;
      found ← find_in_items remote branch items;
      match found with
      | Some mr => mret (Some mr)
      | None => find_in_pages remote branch pages'
      end
  end.

Definition get_merge_request (remote branch : string)
    : prog world (option MergeRequest) :=
  pages ← _get_open_merge_requests;
  find_in_pages remote branch pages.

(** The inner loop of [get_all_merge_requests], on the list [mrs] it
    appends to. *)
Fixpoint collect_from_items (remote branch : string) (items : list json_data)
    (mrs : list MergeRequest) : prog world (list MergeRequest) :=
  match items with
  | [] => mret mrs
  | json_data :: items' =>
      sb ← getitem_source_branch json_data;
      if startswith sb branch then
        mr ← __init__ remote None None None None (Some (JObject json_data));
        collect_from_items remote branch items' (mrs ++ [mr])
      else collect_from_items remote branch items' mrs
  end.

(** The outer loop of [get_all_merge_requests]. *)
Fixpoint collect_from_pages (remote branch : string) (pages : list response)
    (mrs : list MergeRequest) : prog world (list MergeRequest) :=
  match pages with
  | [] => mret mrs
  | r :: pages' =>
      j ← json_of r;
      items ← page_items j;
      mrs ← collect_from_items remote branch items mrs;
      collect_from_pages remote branch pages' mrs
  end.

Definition get_all_merge_requests (remote branch : string)
    : prog world (list MergeRequest) :=
  let mrs := [] in
  pages ← _get_open_merge_requests;
  collect_from_pages remote branch pages mrs.

(** ** More vocabulary *)

(** The MR that the constructor makes of a listed object [d]. *)
Definition hydrated (remote : string) (d : json_data) : MergeRequest :=
  refreshed d (fresh remote None None None None).

(** [r] is a page of the listing with the items [l]. *)
Definition page_of (l : list json_data) (r : response) : Prop :=
  is_error_status (status_code r) = false ∧ body r = Some (JArray l).

(** The value of further keys in a decoded object, if it has the key. *)
Definition lookup_target_branch (d : json_data) : option (option string) :=
  last (omap (λ a, if a is a_target_branch v then Some v else None) d).

Definition lookup_title (d : json_data) : option (option string) :=
  last (omap (λ a, if a is a_title v then Some v else None) d).

Definition lookup_description (d : json_data) : option (option string) :=
  last (omap (λ a, if a is a_description v then Some v else None) d).

Definition lookup_needs_save (d : json_data) : option bool :=
  last (omap (λ a, if a is a_needs_save v then Some v else None) d).

Definition lookup_remote (d : json_data) : option string :=
  last (omap (λ a, if a is a_remote v then Some v else None) d).

(** [s] has no ["-"]. *)
Fixpoint dash_free (s : string) : bool :=
  match s with
  | EmptyString => true
  | String c r => negb (Ascii.eqb c "-") && dash_free r
  end.

(** The listed object [d] has a source branch that starts with [branch]. *)
Definition item_starts_with (branch : string) (d : json_data) : bool :=
  match lookup_source_branch d with
  | Some sb => startswith sb branch
  | None => false
  end.

(** The listed object [d] has the source branch [branch]. *)
Definition item_is (branch : string) (d : json_data) : bool :=
  bool_decide (lookup_source_branch d = Some branch).

(** The pushes among events. *)
Definition is_push (e : event) : bool :=
  match e with
  | Push _ _ => true
  | _ => false
  end.

(** The result of the builder read backwards: every element is a root, or
    targets the source branch of the element that the builder listed just
    before it. *)
Inductive trail (mrs : list MergeRequest) : list MergeRequest → Prop :=
| trail_nil : trail mrs []
| trail_root r l :
    trail mrs l → not_in_source_branches (source_branches mrs) r →
    trail mrs (r :: l)
| trail_step y x l :
    trail mrs (x :: l) → target_branch y = Some (source_branch x) →
    trail mrs (y :: x :: l).

(** * Properties *)

(** ** The chain builder *)

Section chain_builder.
Implicit Types (mrs c : list MergeRequest) (cs : list (list MergeRequest)).
Implicit Types (x y m r : MergeRequest).

Lemma elem_of_source_branches mrs s :
  s ∈ source_branches mrs ↔ ∃ m, m ∈ mrs ∧ source_branch m = s.
Proof.
  unfold source_branches. rewrite elem_of_list_to_set, list_elem_of_fmap.
  split; intros (m & ? & ?); eauto.
Qed.

Lemma source_branch_inj mrs x y :
  NoDup (source_branch <$> mrs) → x ∈ mrs → y ∈ mrs →
  source_branch x = source_branch y → x = y.
Proof.
  induction mrs as [|m mrs IH]; intros Hnd Hx Hy Heq.
  - by apply elem_of_nil in Hx.
  - rewrite fmap_cons in Hnd. apply NoDup_cons in Hnd as [Hm Hnd].
    apply elem_of_cons in Hx as [->|Hx]; apply elem_of_cons in Hy as [->|Hy];
      try done.
    + exfalso. apply Hm. rewrite Heq. by apply list_elem_of_fmap_2.
    + exfalso. apply Hm. rewrite <- Heq. by apply list_elem_of_fmap_2.
    + by apply IH.
Qed.

Lemma mrs_dict_snoc mrs m :
  mrs_dict (mrs ++ [m]) = <[target_branch m := m]> (mrs_dict mrs).
Proof. unfold mrs_dict. by rewrite foldl_app. Qed.

Lemma mrs_dict_lookup_Some mrs k m :
  mrs_dict mrs !! k = Some m → m ∈ mrs ∧ target_branch m = k.
Proof.
  induction mrs as [|x mrs IH] using rev_ind; intros Hk.
  - unfold mrs_dict in Hk. simpl in Hk. by rewrite lookup_empty in Hk.
  - rewrite mrs_dict_snoc in Hk. rewrite elem_of_app, list_elem_of_singleton.
    destruct (decide (target_branch x = k)) as [<-|Hne].
    + rewrite lookup_insert_eq in Hk. simplify_eq. split; [by right|done].
    + rewrite lookup_insert_ne in Hk by done.
      destruct (IH Hk) as [? ?]. split; [by left|done].
Qed.

Lemma mrs_dict_lookup_member mrs m :
  m ∈ mrs → is_Some (mrs_dict mrs !! target_branch m).
Proof.
  induction mrs as [|x mrs IH] using rev_ind; intros Hm.
  - by apply elem_of_nil in Hm.
  - rewrite mrs_dict_snoc.
    destruct (decide (target_branch x = target_branch m)) as [->|Hne].
    + rewrite lookup_insert_eq. eauto.
    + rewrite lookup_insert_ne by done. apply IH.
      apply elem_of_app in Hm as [Hm|Hm]; [done|].
      apply list_elem_of_singleton in Hm. by subst.
Qed.

(** A member that targets a member's source branch is no root. *)
Lemma targets_member_not_root mrs x y :
  x ∈ mrs → target_branch y = Some (source_branch x) →
  ¬ not_in_source_branches (source_branches mrs) y.
Proof.
  intros Hx Hy Hroot. unfold not_in_source_branches in Hroot.
  rewrite Hy in Hroot. apply Hroot, elem_of_source_branches. eauto.
Qed.

Lemma linked_app_r pre c : linked (pre ++ c) → linked c.
Proof.
  induction pre as [|a pre IH]; [done|]. intros H. apply IH.
  simpl in H. destruct (pre ++ c); [done|]. apply H.
Qed.

Lemma linked_cons_cons x y c :
  linked (x :: y :: c) ↔ target_branch y = Some (source_branch x) ∧ linked (y :: c).
Proof. done. Qed.

(** What the inner recursion returns, when it returns. *)
Lemma inner_shape mrs depth x c :
  get_merge_request_chain_inner depth (mrs_dict mrs) x = Some c →
  ∃ rest, c = x :: rest ∧ linked c ∧ Forall (λ m, m ∈ mrs) rest.
Proof.
  revert x c. induction depth as [|d IH]; intros x c H; [done|].
  simpl in H. destruct (mrs_dict mrs !! Some (source_branch x)) as [y|] eqn:Hy.
  - destruct (get_merge_request_chain_inner d (mrs_dict mrs) y) as [c'|] eqn:Hc';
      simplify_eq/=.
    apply IH in Hc' as (rest & -> & Hl & Hin).
    apply mrs_dict_lookup_Some in Hy as [Hy1 Hy2].
    exists (y :: rest). split; [done|]. split.
    + by apply linked_cons_cons.
    + by constructor.
  - simplify_eq. exists []. by repeat split.
Qed.

(** The dict holds, for a target, the last MR of the input with it. *)
Lemma mrs_dict_last mrs k : mrs_dict mrs !! k = last_targeting mrs k.
Proof.
  unfold last_targeting. induction mrs as [|x mrs IH] using rev_ind; [done|].
  rewrite mrs_dict_snoc, filter_app.
  destruct (decide (target_branch x = k)) as [<-|Hne].
  - rewrite lookup_insert_eq, filter_cons_True, filter_nil by done.
    by rewrite last_snoc.
  - rewrite lookup_insert_ne, filter_cons_False, filter_nil by done.
    by rewrite app_nil_r.
Qed.

Lemma inner_follows mrs depth x c :
  get_merge_request_chain_inner depth (mrs_dict mrs) x = Some c →
  follows mrs c.
Proof.
  revert x c. induction depth as [|d IH]; intros x c H; [done|].
  simpl in H. destruct (mrs_dict mrs !! Some (source_branch x)) as [y|] eqn:Hy.
  - destruct (get_merge_request_chain_inner d (mrs_dict mrs) y) as [c'|] eqn:Hc';
      simplify_eq/=.
    pose proof (IH _ _ Hc') as Hf.
    apply inner_shape in Hc' as (rest & -> & _).
    simpl. split; [|done]. by rewrite <- mrs_dict_last.
  - simplify_eq. simpl. by rewrite <- mrs_dict_last.
Qed.

Lemma walk_member mrs l x : walk mrs l → x ∈ l → x ∈ mrs.
Proof.
  induction 1 as [r|y z seen Hw IH]; intros Hx.
  - apply list_elem_of_singleton in Hx. by subst.
  - apply elem_of_cons in Hx as [->|Hx]; auto.
Qed.

Lemma walk_parent mrs l y :
  walk mrs l → y ∈ l →
  not_in_source_branches (source_branches mrs) y
  ∨ ∃ z, z ∈ l ∧ target_branch y = Some (source_branch z).
Proof.
  induction 1 as [r|y' z seen Hw IH]; intros Hy.
  - apply list_elem_of_singleton in Hy. subst. by left.
  - apply elem_of_cons in Hy as [->|Hy].
    + right. exists z. split; [|done]. apply elem_of_cons. right. by left.
    + destruct (IH Hy) as [?|(z' & Hz' & ?)]; [by left|].
      right. exists z'. split; [|done]. by apply elem_of_cons; right.
Qed.

(** The next MR of a walk is new to it. *)
Lemma walk_fresh mrs x seen y :
  NoDup (source_branch <$> mrs) →
  walk mrs (x :: seen) → NoDup (source_branch <$> x :: seen) →
  y ∈ mrs → target_branch y = Some (source_branch x) →
  source_branch y ∉ source_branch <$> x :: seen.
Proof.
  intros Hnd Hw Hnds Hy Hyx Hin.
  apply list_elem_of_fmap in Hin as (z & Hsz & Hz).
  assert (z = y) as ->.
  { apply (source_branch_inj mrs); [done|by eapply walk_member|done|done]. }
  destruct (walk_parent _ _ _ Hw Hz) as [Hroot|(p & Hp & Hyp)].
  - eapply targets_member_not_root; [|exact Hyx|exact Hroot].
    eapply walk_member; [exact Hw|]. by left.
  - assert (p = x) as ->.
    { apply (source_branch_inj mrs); [done|by eapply walk_member| |congruence].
      eapply walk_member; [exact Hw|]. by left. }
    (* [y] is in the walk and targets its head [x]: impossible *)
    clear Hp. inversion Hw as [r Hr Hroot|x' x'' seen' Hw' Hx' Hxx'']; subst.
    + apply list_elem_of_singleton in Hz. subst.
      eapply targets_member_not_root; [exact Hr|exact Hyx|exact Hroot].
    + apply elem_of_cons in Hz as [->|Hz].
      * rewrite Hyx in Hxx''. simplify_eq.
        rewrite !fmap_cons in Hnds. apply NoDup_cons in Hnds as [Hn _].
        apply Hn. rewrite Hxx''. by left.
      * destruct (walk_parent _ _ _ Hw' Hz) as [Hroot|(p & Hp & Hyp')].
        -- eapply targets_member_not_root; [exact Hx'|exact Hyx|exact Hroot].
        -- rewrite Hyx in Hyp'. simplify_eq.
           rewrite fmap_cons in Hnds. apply NoDup_cons in Hnds as [Hn _].
           apply Hn. rewrite Hyp'. by apply list_elem_of_fmap_2.
Qed.

Lemma walk_length mrs l :
  walk mrs l → NoDup (source_branch <$> l) → length l ≤ length mrs.
Proof.
  intros Hw Hnd. apply submseteq_length, NoDup_submseteq.
  - by eapply NoDup_fmap_1.
  - intros x. by apply walk_member.
Qed.

(** With pairwise distinct source branches the recursion ends within
    [length mrs] nested calls. *)
Lemma inner_terminates mrs depth x seen :
  NoDup (source_branch <$> mrs) →
  walk mrs (x :: seen) → NoDup (source_branch <$> x :: seen) →
  length mrs ≤ depth + length seen →
  is_Some (get_merge_request_chain_inner depth (mrs_dict mrs) x).
Proof.
  intros Hnd. revert x seen.
  induction depth as [|d IH]; intros x seen Hw Hnds Hlen.
  - apply walk_length in Hw; [|done]. simpl in *. lia.
  - simpl. destruct (mrs_dict mrs !! Some (source_branch x)) as [y|] eqn:Hy;
      [|by eauto].
    apply mrs_dict_lookup_Some in Hy as [Hy1 Hy2].
    destruct (IH y (x :: seen)) as [c Hc].
    + by constructor.
    + rewrite fmap_cons. apply NoDup_cons. split; [|done].
      by apply (walk_fresh mrs x seen y).
    + simpl. lia.
    + rewrite Hc. by eexists.
Qed.

Lemma roots_member mrs r :
  r ∈ roots mrs ↔ r ∈ mrs ∧ not_in_source_branches (source_branches mrs) r.
Proof. unfold roots. rewrite list_elem_of_filter. tauto. Qed.

Lemma root_terminates mrs depth r :
  NoDup (source_branch <$> mrs) → r ∈ roots mrs → length mrs ≤ depth →
  is_Some (get_merge_request_chain_inner depth (mrs_dict mrs) r).
Proof.
  intros Hnd [Hr Hroot]%roots_member Hlen.
  apply (inner_terminates mrs depth r []); simpl; try done.
  - by constructor.
  - repeat constructor. by intros ?%elem_of_nil.
  - lia.
Qed.

Lemma extend_chains_spec depth d rs acc :
  Forall (λ r, is_Some (get_merge_request_chain_inner depth d r)) rs →
  extend_chains depth d rs acc
  = Some (acc ++ mjoin (chain_from depth d <$> rs)).
Proof.
  intros H. revert acc. induction H as [|r rs [c Hc] _ IH]; intros acc; simpl.
  - by rewrite app_nil_r.
  - rewrite Hc. simpl. rewrite IH. unfold chain_from at 2. rewrite Hc. simpl.
    by rewrite app_assoc.
Qed.


Lemma NoDup_split_eq {A} (l1 l2 k1 k2 : list A) (x : A) :
  NoDup (l1 ++ x :: l2) → l1 ++ x :: l2 = k1 ++ x :: k2 → l1 = k1 ∧ l2 = k2.
Proof.
  revert k1. induction l1 as [|a l1 IH]; intros k1 Hnd Heq.
  - destruct k1 as [|b k1]; simplify_eq/=; [done|].
    apply NoDup_cons in Hnd as [Hx _]. exfalso. apply Hx.
    apply elem_of_app. right. by left.
  - destruct k1 as [|b k1]; simplify_eq/=.
    + apply NoDup_cons in Hnd as [Hx _]. exfalso. apply Hx.
      apply elem_of_app. right. by left.
    + apply NoDup_cons in Hnd as [_ Hnd].
      destruct (IH k1 Hnd) as [-> ->]; done.
Qed.

Lemma NoDup_join_same cs c c' x :
  NoDup (mjoin cs) → c ∈ cs → c' ∈ cs → x ∈ c → x ∈ c' → c = c'.
Proof.
  induction cs as [|a cs IH]; intros Hnd Hc Hc' Hx Hx'.
  - by apply elem_of_nil in Hc.
  - simpl in Hnd. apply NoDup_app in Hnd as (_ & Hdisj & Hnd).
    apply elem_of_cons in Hc as [->|Hc]; apply elem_of_cons in Hc' as [->|Hc'].
    + done.
    + exfalso. apply (Hdisj x Hx). apply list_elem_of_join. eauto.
    + exfalso. apply (Hdisj x Hx'). apply list_elem_of_join. eauto.
    + by apply IH.
Qed.

Lemma linked_pred pre m post :
  linked (pre ++ m :: post) → pre ≠ [] →
  ∃ pre' p, pre = pre' ++ [p] ∧ target_branch m = Some (source_branch p).
Proof.
  destruct pre as [|p pre' _] using rev_ind; [done|]. intros Hl _.
  exists pre', p. split; [done|].
  rewrite <- app_assoc in Hl. apply linked_app_r in Hl. apply Hl.
Qed.

(** In a chain with a root at its head, nothing after the head is a root. *)
Lemma chain_tail_not_root mrs r rest :
  linked (r :: rest) → Forall (λ m, m ∈ mrs) (r :: rest) →
  Forall (λ y, ¬ not_in_source_branches (source_branches mrs) y) rest.
Proof.
  revert r. induction rest as [|y rest IH]; intros r Hl Hin; [done|].
  apply linked_cons_cons in Hl as [Hy Hl].
  apply Forall_cons in Hin as [Hr Hin]. constructor.
  - by eapply targets_member_not_root.
  - by eapply IH.
Qed.

Section decomposed.
Context (mrs : list MergeRequest) (cs : list (list MergeRequest)).
Context (Hnd : NoDup (source_branch <$> mrs)).
Context (Hperm : mrs ≡ₚ mjoin cs).
Context (Hcs : Forall (rooted_chain mrs) cs).

Lemma chain_member c x : c ∈ cs → x ∈ c → x ∈ mrs.
Proof. intros Hc Hx. rewrite Hperm. apply list_elem_of_join. eauto. Qed.

Lemma join_NoDup : NoDup (mjoin cs).
Proof. rewrite <- Hperm. by eapply NoDup_fmap_1. Qed.

Lemma chain_NoDup c : c ∈ cs → NoDup c.
Proof.
  intros Hc. apply list_elem_of_split in Hc as (l1 & l2 & Heq).
  pose proof join_NoDup as H. rewrite Heq, join_app in H. simpl in H.
  apply NoDup_app in H as (_ & _ & H). by apply NoDup_app in H as (H & _).
Qed.

(** Whoever targets the source branch of [x] comes right after [x] in
    the chain of [x]. *)
Lemma chain_successor c pre x rest m :
  c ∈ cs → c = pre ++ x :: rest → m ∈ mrs →
  target_branch m = Some (source_branch x) → ∃ rest', rest = m :: rest'.
Proof.
  intros Hc -> Hm Hmx.
  assert (x ∈ mrs) as Hx.
  { apply (chain_member _ _ Hc), elem_of_app. right. by left. }
  pose proof Hm as Hm'. rewrite Hperm in Hm'.
  apply list_elem_of_join in Hm' as (c' & Hmc' & Hc').
  pose proof (proj1 (Forall_forall _ _) Hcs c' Hc') as (r & t & -> & Hroot & Hl).
  apply list_elem_of_split in Hmc' as (pre' & post' & Heq).
  destruct (decide (pre' = [])) as [->|Hne].
  { simplify_eq/=. exfalso. by eapply targets_member_not_root. }
  rewrite Heq in Hl. destruct (linked_pred _ _ _ Hl Hne) as (pre'' & p & -> & Hp).
  assert (p = x) as ->.
  { apply (source_branch_inj mrs); [done| |done|congruence].
    apply (chain_member _ _ Hc'). rewrite Heq, !elem_of_app.
    left. right. by left. }
  rewrite <- app_assoc in Heq. simpl in Heq.
  assert (pre ++ x :: rest = r :: t) as Hsame.
  { apply (NoDup_join_same cs _ _ x join_NoDup Hc Hc').
    - apply elem_of_app. right. by left.
    - rewrite Heq. apply elem_of_app. right. by left. }
  rewrite Heq in Hsame.
  apply NoDup_split_eq in Hsame as [_ ->]; [by eexists|].
  by apply chain_NoDup.
Qed.

(** On a chain of the decomposition the recursion returns the rest of
    the chain. *)
Lemma inner_on_chain c rest : ∀ pre x depth,
  c ∈ cs → c = pre ++ x :: rest → length rest < depth →
  get_merge_request_chain_inner depth (mrs_dict mrs) x = Some (x :: rest).
Proof.
  induction rest as [|y rest IH]; intros pre x depth Hc Heq Hlen;
    (destruct depth as [|d]; [simpl in Hlen; lia|]); simpl.
  - destruct (mrs_dict mrs !! Some (source_branch x)) as [m|] eqn:Hm; [|done].
    apply mrs_dict_lookup_Some in Hm as [Hm1 Hm2].
    by destruct (chain_successor c pre x [] m) as [? ?].
  - assert (linked c) as Hl.
    { by pose proof (proj1 (Forall_forall _ _) Hcs c Hc) as (? & ? & _ & _ & ?). }
    rewrite Heq in Hl. apply linked_app_r, linked_cons_cons in Hl as [Hy _].
    assert (y ∈ mrs) as Hyin.
    { apply (chain_member _ _ Hc). rewrite Heq, elem_of_app.
      right. right. by left. }
    destruct (mrs_dict_lookup_member mrs y Hyin) as [m Hm].
    rewrite Hy in Hm. rewrite Hm.
    apply mrs_dict_lookup_Some in Hm as [Hm1 Hm2].
    destruct (chain_successor c pre x (y :: rest) m) as [rest' Hr]; try done.
    simplify_eq.
    rewrite (IH (pre ++ [x]) m d); [done|done| |simpl in Hlen; lia].
    by rewrite <- app_assoc.
Qed.

Lemma chain_length c : c ∈ cs → length c ≤ length mrs.
Proof.
  intros Hc. rewrite Hperm. apply list_elem_of_split in Hc as (l1 & l2 & Heq).
  rewrite Heq, join_app. simpl. rewrite !length_app. lia.
Qed.

Lemma chain_from_head depth c :
  length mrs ≤ depth → c ∈ cs →
  ∃ r, head c = Some r
       ∧ get_merge_request_chain_inner depth (mrs_dict mrs) r = Some c.
Proof.
  intros Hlen Hc.
  pose proof (proj1 (Forall_forall _ _) Hcs c Hc) as (r & t & Heq & _ & _).
  exists r. split; [by rewrite Heq|]. rewrite Heq.
  apply (inner_on_chain c t [] r depth); [done|done|].
  apply chain_length in Hc. rewrite Heq in Hc. simpl in Hc. lia.
Qed.

(** The roots, in the order of the input, are the heads of the chains. *)
Lemma roots_heads : roots mrs ≡ₚ omap head cs.
Proof.
  unfold roots. etrans; [apply (filter_Permutation _ _ _ Hperm)|].
  assert (∀ cs', (∀ c, c ∈ cs' → c ∈ cs) →
    filter (not_in_source_branches (source_branches mrs)) (mjoin cs')
    = omap head cs') as H; [|by rewrite H].
  induction cs' as [|c cs' IH]; intros Hsub; [done|].
  simpl. rewrite filter_app, IH by (intros; apply Hsub; by right).
  assert (c ∈ cs) as Hc by (apply Hsub; by left).
  pose proof (proj1 (Forall_forall _ _) Hcs c Hc) as (r & t & -> & Hroot & Hl).
  simpl. rewrite filter_cons_True by done.
  assert (filter (not_in_source_branches (source_branches mrs)) t = []) as ->; [|done].
  apply (chain_tail_not_root mrs) in Hl.
  - clear -Hl. induction Hl as [|y t Hy _ IH]; [done|].
    by rewrite filter_cons_False.
  - apply Forall_forall. intros z Hz. by apply (chain_member _ _ Hc).
Qed.

End decomposed.

End chain_builder.

Lemma fmap_omap_head_id (f : MergeRequest → list MergeRequest)
    (l : list (list MergeRequest)) :
  (∀ c, c ∈ l → ∃ r, head c = Some r ∧ f r = c) → f <$> omap head l = l.
Proof.
  induction l as [|c l IH]; intros H; [done|].
  destruct (H c) as (r & Hr & Hf); [by left|].
  csimpl. rewrite Hr. csimpl. rewrite Hf, IH; [done|].
  intros c' Hc'. apply H. by right.
Qed.

Lemma head_fmap_chain (f : MergeRequest → list MergeRequest)
    (l : list MergeRequest) :
  (∀ r, r ∈ l → head (f r) = Some r) → head <$> (f <$> l) = Some <$> l.
Proof.
  induction l as [|r l IH]; intros H; [done|].
  csimpl. rewrite H by (by left). rewrite IH; [done|].
  intros r' Hr'. apply H. by right.
Qed.

(** Whatever the links, with pairwise distinct source branches the builder
    returns the chains that the recursion finds from the roots. *)
Lemma chain_builder_returns (mrs : list MergeRequest) (depth : nat) :
  NoDup (source_branch <$> mrs) → length mrs ≤ depth →
  get_merge_request_chain depth mrs
  = Some (mjoin (chain_from depth (mrs_dict mrs) <$> roots mrs))
  ∧ ∀ r, r ∈ roots mrs →
      get_merge_request_chain_inner depth (mrs_dict mrs) r
      = Some (chain_from depth (mrs_dict mrs) r).
Proof.
  intros Hnd Hlen.
  assert (∀ r, r ∈ roots mrs →
    get_merge_request_chain_inner depth (mrs_dict mrs) r
    = Some (chain_from depth (mrs_dict mrs) r)) as Hroots.
  { intros r Hr. destruct (root_terminates mrs depth r Hnd Hr Hlen) as [c Hc].
    unfold chain_from. by rewrite Hc. }
  split; [|done]. unfold get_merge_request_chain.
  destruct (decide (length mrs = 0)) as [Hz|_].
  { apply nil_length_inv in Hz. by subst. }
  rewrite extend_chains_spec; [done|].
  apply Forall_forall. intros r Hr. rewrite (Hroots r Hr). by eexists.
Qed.

(** C1. For a set of MRs with pairwise distinct source branches whose links
    form one linked list per root (the MRs are, in some order, the members
    of chains [cs], each starting at a root and each element targeting the
    source branch of the one before), [get_merge_request_chain] returns, within
    [len(mrs)] nested calls, the concatenation of those chains in the order
    in which their roots appear in the input: every member is there, each
    chain is in parent-before-child order.  For the empty input ([cs] empty,
    any depth) this is the empty list. *)
Theorem chain_ordering (mrs : list MergeRequest)
    (cs : list (list MergeRequest)) (depth : nat) :
  NoDup (source_branch <$> mrs) →
  mrs ≡ₚ mjoin cs →
  Forall (rooted_chain mrs) cs →
  length mrs ≤ depth →
  ∃ cs', get_merge_request_chain depth mrs = Some (mjoin cs')
    ∧ head <$> cs' = Some <$> roots mrs
    ∧ cs' ≡ₚ cs
    ∧ Forall (rooted_chain mrs) cs'
    ∧ mjoin cs' ≡ₚ mrs.
Proof.
  intros Hnd Hperm Hcs Hlen.
  destruct (chain_builder_returns mrs depth Hnd Hlen) as [Hres Hroots].
  set (f := chain_from depth (mrs_dict mrs)) in *.
  assert (f <$> roots mrs ≡ₚ cs) as Hcs'.
  { rewrite (roots_heads mrs cs Hperm Hcs).
    rewrite fmap_omap_head_id; [done|].
    intros c Hc.
    destruct (chain_from_head mrs cs Hnd Hperm Hcs depth c Hlen Hc) as (r & Hr & Hin).
    exists r. split; [done|]. unfold f, chain_from. by rewrite Hin. }
  exists (f <$> roots mrs). split; [done|]. split; [|split; [done|split]].
  - apply head_fmap_chain. intros r Hr.
    pose proof (Hroots r Hr) as Hin.
    apply inner_shape in Hin as (rest & Heq & _). fold f in Heq. by rewrite Heq.
  - by rewrite Hcs'.
  - by rewrite Hcs', Hperm.
Qed.

(** [chain_ordering] on scenario A of the specification. *)
Lemma chain_ordering_witness :
  ∃ cs', get_merge_request_chain 3
           [mk_mr "feat-3" "feat-2"; mk_mr "feat-1" "master"; mk_mr "feat-2" "feat-1"]
         = Some (mjoin cs')
    ∧ head <$> cs'
      = Some <$> roots [mk_mr "feat-3" "feat-2"; mk_mr "feat-1" "master";
                        mk_mr "feat-2" "feat-1"]
    ∧ cs' ≡ₚ [[mk_mr "feat-1" "master"; mk_mr "feat-2" "feat-1"; mk_mr "feat-3" "feat-2"]]
    ∧ Forall (rooted_chain [mk_mr "feat-3" "feat-2"; mk_mr "feat-1" "master";
                            mk_mr "feat-2" "feat-1"]) cs'
    ∧ mjoin cs' ≡ₚ [mk_mr "feat-3" "feat-2"; mk_mr "feat-1" "master";
                    mk_mr "feat-2" "feat-1"].
Proof.
  apply (chain_ordering _
    [[mk_mr "feat-1" "master"; mk_mr "feat-2" "feat-1"; mk_mr "feat-3" "feat-2"]] 3).
  - compute_done.
  - simpl. apply Permutation_cons_append.
  - constructor; [|constructor]. eexists _, _. split; [reflexivity|]. split.
    + compute_done.
    + simpl. tauto.
  - simpl. lia.
Defined.

(** C2 fails on the code, which validates nothing.  A cycle of two MRs
    yields the empty list with no error; of two MRs that target the same
    branch the earlier one is dropped with no error; and with a repeated
    source branch a cycle can be reached from a root, where the recursion
    never ends, whatever the depth allowed. *)
Lemma chain_malformed_undetected :
  get_merge_request_chain 1000 [mk_mr "a" "b"; mk_mr "b" "a"] = Some []
  ∧ get_merge_request_chain 1000
      [mk_mr "a" "master"; mk_mr "b" "a"; mk_mr "c" "a"]
    = Some [mk_mr "a" "master"; mk_mr "c" "a"]
  ∧ ∀ depth, get_merge_request_chain depth [mk_mr "a" "master"; mk_mr "a" "a"]
             = None.
Proof.
  split; [by vm_compute|]. split; [by vm_compute|].
  intros depth. unfold get_merge_request_chain. simpl.
  assert (roots [mk_mr "a" "master"; mk_mr "a" "a"] = [mk_mr "a" "master"]) as ->
    by by vm_compute.
  simpl.
  assert (∀ x, source_branch x = "a" →
    get_merge_request_chain_inner depth
      (mrs_dict [mk_mr "a" "master"; mk_mr "a" "a"]) x = None) as H.
  { induction depth as [|d IH]; intros x Hx; [done|]. simpl. rewrite Hx.
    assert (mrs_dict [mk_mr "a" "master"; mk_mr "a" "a"] !! Some "a"
            = Some (mk_mr "a" "a")) as -> by by vm_compute.
    by rewrite IH. }
  by rewrite H.
Qed.

(** C2, as the code has it.  With pairwise distinct source branches, and
    whatever the links (cycles, several MRs with one target), the builder
    raises nothing and ends within [len(mrs)] nested calls: it returns the
    concatenation, in the input order of the roots, of one chain per root,
    each chain going from an MR to the last MR of the input that targets its
    source branch until none does.  Its elements are members of the input;
    nothing else of the input is in it, and with no root it is empty. *)
Theorem chain_not_validated (mrs : list MergeRequest) (depth : nat) :
  NoDup (source_branch <$> mrs) → length mrs ≤ depth →
  ∃ cs', get_merge_request_chain depth mrs = Some (mjoin cs')
    ∧ head <$> cs' = Some <$> roots mrs
    ∧ Forall (follows mrs) cs'
    ∧ (∀ m, m ∈ mjoin cs' → m ∈ mrs)
    ∧ (roots mrs = [] → cs' = []).
Proof.
  intros Hnd Hlen.
  destruct (chain_builder_returns mrs depth Hnd Hlen) as [Hres Hroots].
  exists (chain_from depth (mrs_dict mrs) <$> roots mrs).
  split; [done|]. split; [|split; [|split]].
  - apply head_fmap_chain. intros r Hr.
    pose proof (Hroots r Hr) as Hin.
    apply inner_shape in Hin as (rest & Heq & _). by rewrite Heq.
  - apply Forall_fmap, Forall_forall. intros r Hr. simpl.
    by eapply inner_follows, Hroots.
  - intros m (c & Hm & Hc)%list_elem_of_join.
    apply list_elem_of_fmap in Hc as (r & -> & Hr).
    pose proof (Hroots r Hr) as Hin.
    apply inner_shape in Hin as (rest & Heq & _ & Hall).
    rewrite Heq in Hm. apply elem_of_cons in Hm as [->|Hm].
    + by apply roots_member in Hr as [? _].
    + by apply (proj1 (Forall_forall _ _) Hall).
  - by intros ->.
Qed.

(** [chain_not_validated] on a root and a cycle of two. *)
Lemma chain_not_validated_witness :
  ∃ cs', get_merge_request_chain 3 [mk_mr "r" "master"; mk_mr "a" "b"; mk_mr "b" "a"]
         = Some (mjoin cs')
    ∧ head <$> cs' = Some <$> roots [mk_mr "r" "master"; mk_mr "a" "b"; mk_mr "b" "a"]
    ∧ Forall (follows [mk_mr "r" "master"; mk_mr "a" "b"; mk_mr "b" "a"]) cs'
    ∧ (∀ m, m ∈ mjoin cs' → m ∈ [mk_mr "r" "master"; mk_mr "a" "b"; mk_mr "b" "a"])
    ∧ (roots [mk_mr "r" "master"; mk_mr "a" "b"; mk_mr "b" "a"] = [] → cs' = []).
Proof.
  apply (chain_not_validated [mk_mr "r" "master"; mk_mr "a" "b"; mk_mr "b" "a"] 3).
  - compute_done.
  - simpl. lia.
Defined.

(** The empty input gives the empty list, at any depth. *)
Example chain_empty (depth : nat) : get_merge_request_chain depth [] = Some [].
Proof. done. Qed.

(** Scenario A of the specification, with the input out of order. *)
Example chain_scenario_A :
  get_merge_request_chain 3
    [mk_mr "feat-3" "feat-2"; mk_mr "feat-1" "master"; mk_mr "feat-2" "feat-1"]
  = Some [mk_mr "feat-1" "master"; mk_mr "feat-2" "feat-1"; mk_mr "feat-3" "feat-2"].
Proof. by vm_compute. Qed.

(** Two stacks: the chain of the root that comes first in the input comes
    first. *)
Example chain_two_roots :
  get_merge_request_chain 4
    [mk_mr "fix-2" "fix-1"; mk_mr "feat-1" "master"; mk_mr "fix-1" "stable";
     mk_mr "feat-2" "feat-1"]
  = Some [mk_mr "feat-1" "master"; mk_mr "feat-2" "feat-1";
          mk_mr "fix-1" "stable"; mk_mr "fix-2" "fix-1"].
Proof. by vm_compute. Qed.

(** ** Update detection *)

(** What [needs_update] compares: the MR's description as stored against the
    commit's description trimmed. *)
Lemma needs_update_false (parse : string → string * string)
    (self : MergeRequest) (commit : Commit.t) :
  needs_update parse self commit = false ↔
    _source_branch self = Commit.source_branch commit
    ∧ _target_branch self = Some (Commit.target_branch commit)
    ∧ _title self = Some (parse (Commit.message (Commit.commit commit))).1
    ∧ _description self
      = Some (Py.strip (parse (Commit.message (Commit.commit commit))).2).
Proof.
  unfold needs_update.
  destruct (parse (Commit.message (Commit.commit commit))) as [title desc]; simpl.
  rewrite !orb_false_iff, !bool_decide_eq_false. split.
  - intros [[[H1 H2] H3] H4]. repeat split.
    + by destruct (decide (_source_branch self = Commit.source_branch commit)).
    + by destruct (decide (_target_branch self = Some (Commit.target_branch commit))).
    + by destruct (decide (_title self = Some title)).
    + by destruct (decide (_description self = Some (Py.strip desc))).
  - intros (H1 & H2 & H3 & H4). repeat split; intros H; by apply H.
Qed.

(** C3 fails on the code: the MR's stored description is compared as it
    is, only the commit's side is trimmed.  Here the four values agree once
    both descriptions are trimmed, and [needs_update] still answers [True]. *)
Theorem needs_update_stored_description_untrimmed :
  let self := with_description (Some "body ")
                (with_title (Some "Fix") (mk_mr "feat-1" "master")) in
  let commit :=
    {| Commit.commit := {| Commit.message := "Fix" +:+ String "010" "body";
                           Commit.hexsha := "c0ffee" |};
       Commit.source_branch := "feat-1";
       Commit.target_branch := "master" |} in
  let '(title, desc) :=
    get_msg_title_description (Commit.message (Commit.commit commit)) in
  _source_branch self = Commit.source_branch commit
  ∧ _target_branch self = Some (Commit.target_branch commit)
  ∧ _title self = Some title
  ∧ Py.strip <$> _description self = Some (Py.strip desc)
  ∧ needs_update get_msg_title_description self commit = true.
Proof. vm_compute. repeat split. Qed.

(** ** Running programs *)

Ltac run :=
  unfold create, update, rebase, delete, get_commits, refresh, save,
    merge_attempt, poll_once, fetch_page,
    set_title, set_target_branch, set_desc, _set_data, create_failed,
    getitem_iid, getitem_web_url, raise_for_status, json_of, request,
    sleep, print, do_event, globals, get_self, modify_self, try_except,
    raise, mbind, mret, prog_bind, prog_ret, answered in *;
  simpl in *.

Lemma with_needs_save_same (mr : MergeRequest) (b : bool) :
  _needs_save mr = b → with_needs_save b mr = mr.
Proof. intros <-. by destruct mr. Qed.

(** [update] step by step: the overrides are stored, one PUT is sent, and
    the reply decides the rest. *)
Lemma update_run (a b c d : option string) (mr : MergeRequest) (w : world) :
  let mr1 := overridden a b c d mr in
  let w1 := answered (Request PUT (iid_url w mr1) (Some (update_data mr1))) w in
  update a b c d (mr, w) =
  match pending w with
  | [] => (Blocked, (mr1, w1))
  | Fails e :: _ => (Raised e, (mr1, w1))
  | Resp r :: _ =>
      if is_error_status (status_code r)
      then (Raised (HTTPError (status_code r)), (mr1, w1))
      else match body r with
           | None => (Raised JSONDecodeError, (mr1, w1))
           | Some data =>
               match getitem_iid data (mr1, w1) with
               | (Returned iid, _) =>
                   match getitem_web_url data (with_iid iid mr1, w1) with
                   | (Returned web_url, _) =>
                       (Returned tt, (with_web_url web_url (with_iid iid mr1), w1))
                   | (Raised e, s) => (Raised e, s)
                   | (Blocked, s) => (Blocked, s)
                   end
               | (Raised e, s) => (Raised e, s)
               | (Blocked, s) => (Blocked, s)
               end
           end
  end.
Proof.
  destruct a, b, c, d, w as [url rsb [|[r|e] rest] lg]; run; try done;
    destruct (is_error_status (status_code r)); try done;
    destruct (body r) as [[data|l]|]; try done;
    try destruct (lookup_iid data); try done; try destruct (lookup_web_url data); try done.
Qed.

(** [save] is [update] with no override, then the flag is cleared. *)
Lemma save_run (mr : MergeRequest) (w : world) :
  save (mr, w) =
  if _needs_save mr then
    match update None None None None (mr, w) with
    | (Returned _, (mr', w')) => (Returned true, (with_needs_save false mr', w'))
    | (Raised e, s) => (Raised e, s)
    | (Blocked, s) => (Blocked, s)
    end
  else (Returned false, (with_needs_save false mr, w)).
Proof.
  unfold save, mbind, prog_bind, get_self, modify_self, mret, prog_ret. simpl.
  destruct (_needs_save mr); [|done].
  by destruct (update None None None None (mr, w)) as [[[]| |] [? ?]].
Qed.

(** ** The setters and [save] *)

(** C4 fails on the code for [set_desc], which compares the two
    descriptions trimmed: a new description that differs from the stored
    one in surrounding whitespace only is not stored and sets no flag.  And
    [save] clears the flag only when [update] returns: here the remote
    answers 500, [save] raises and the flag stays set. *)
Lemma set_desc_ignores_whitespace_change :
  let mr := with_description (Some "body") (mk_mr "feat-1" "master") in
  let dirty := with_needs_save true mr in
  let w := example_world [Resp {| status_code := 500; body := None |}] in
  _description mr ≠ Some "body "
  ∧ set_desc (Some "body ") (mr, w) = (Returned tt, (mr, w))
  ∧ ∃ w', save (dirty, w) = (Raised (HTTPError 500), (dirty, w')).
Proof. split; [done|]. split; [done|]. by eexists. Qed.

(** C4, as the code has it.  [set_title] and [set_target_branch] called
    with the current value change nothing, and with another value store it and
    set [needs_save]; [set_desc], on an MR that has a description, does the
    same with "equal" read as equal once both descriptions are trimmed.
    [save] with the flag unset sends nothing and returns [False]; with the
    flag set it sends exactly one request, the PUT of [update], and then
    clears the flag and returns [True] if [update] returned, and leaves the
    flag set if [update] did not. *)
Theorem setters_then_save (mr : MergeRequest) (w : world) :
  (∀ title,
     (_title mr = title → set_title title (mr, w) = (Returned tt, (mr, w)))
     ∧ (_title mr ≠ title →
        set_title title (mr, w)
        = (Returned tt, (with_needs_save true (with_title title mr), w))))
  ∧ (∀ target,
     (_target_branch mr = target →
        set_target_branch target (mr, w) = (Returned tt, (mr, w)))
     ∧ (_target_branch mr ≠ target →
        set_target_branch target (mr, w)
        = (Returned tt, (with_needs_save true (with_target_branch target mr), w))))
  ∧ (∀ mine desc, _description mr = Some mine →
     (Py.strip mine = Py.strip desc →
        set_desc (Some desc) (mr, w) = (Returned tt, (mr, w)))
     ∧ (Py.strip mine ≠ Py.strip desc →
        set_desc (Some desc) (mr, w)
        = (Returned tt, (with_needs_save true (with_description (Some desc) mr), w))))
  ∧ (_needs_save mr = false → save (mr, w) = (Returned false, (mr, w)))
  ∧ (_needs_save mr = true → ∃ o mr' w',
       save (mr, w) = (o, (mr', w'))
       ∧ log w' = log w ++ [Request PUT (iid_url w mr) (Some (update_data mr))]
       ∧ match o with
         | Returned saved => saved = true ∧ _needs_save mr' = false
         | _ => _needs_save mr' = true
         end).
Proof.
  split; [|split; [|split; [|split]]].
  - intros title. split; intros H; run; by destruct (decide (_title mr ≠ title)).
  - intros target. split; intros H; run;
      by destruct (decide (_target_branch mr ≠ target)).
  - intros mine desc Hd. split; intros H; run; rewrite Hd;
      by destruct (decide (Py.strip mine ≠ Py.strip desc)).
  - intros H. rewrite save_run, H. by rewrite with_needs_save_same.
  - intros H. rewrite save_run, H, (update_run None None None None mr w). simpl.
    destruct w as [url rsb [|[r|e] rest] lg]; simpl; [by eauto 10|..|by eauto 10].
    destruct (is_error_status (status_code r)); [by eauto 10|].
    destruct (body r) as [[d|l]|]; [| |by eauto 10].
    + unfold getitem_iid, getitem_web_url.
      destruct (lookup_iid d); [|by eexists _, _, _].
      destruct (lookup_web_url d); by eexists _, _, _.
    + by eexists _, _, _.
Qed.

(** [setters_then_save] on a dirty MR whose update succeeds. *)
Lemma setters_then_save_witness :
  ∃ o mr' w',
    save (with_needs_save true (with_iid (Some "7") (mk_mr "feat-1" "master")),
          example_world
            [Resp {| status_code := 200;
                     body := Some (JObject [a_iid (Some "7"); a_web_url (Some "u")]) |}])
    = (o, (mr', w'))
    ∧ log w' = [] ++ [Request PUT
                        "https://gitlab.example/api/v4/projects/1/merge_requests/7"
                        (Some (update_data (with_needs_save true
                                  (with_iid (Some "7") (mk_mr "feat-1" "master")))))]
    ∧ match o with
      | Returned saved => saved = true ∧ _needs_save mr' = false
      | _ => _needs_save mr' = true
      end.
Proof.
  exact (proj2 (proj2 (proj2 (proj2
    (setters_then_save
       (with_needs_save true (with_iid (Some "7") (mk_mr "feat-1" "master")))
       (example_world
          [Resp {| status_code := 200;
                   body := Some (JObject [a_iid (Some "7"); a_web_url (Some "u")]) |}])))))
    eq_refl).
Defined.

(** ** The remote client: [update], [create] and the guard on [iid] *)

(** C10. [update] first stores every override that is not [None], then
    sends one PUT with the values so stored.  On a reply with an error
    status it raises with the object left as overridden: [iid], [web_url]
    and the fields without override are as before.  On a reply with another
    status, whose body holds [iid] and [web_url], it also takes these two
    from the body.  However it ends, [needs_save] is what it was. *)
Theorem update_not_atomic (source target title description : option string)
    (mr : MergeRequest) (w : world) (r : response) (rest : list reply) :
  pending w = Resp r :: rest →
  let mr1 := overridden source target title description mr in
  let w1 := answered (Request PUT (iid_url w mr1) (Some (update_data mr1))) w in
  (_source_branch mr1 = default (_source_branch mr) source
   ∧ _target_branch mr1 = from_option Some (_target_branch mr) target
   ∧ _title mr1 = from_option Some (_title mr) title
   ∧ _description mr1 = from_option Some (_description mr) description
   ∧ _iid mr1 = _iid mr ∧ _web_url mr1 = _web_url mr
   ∧ _needs_save mr1 = _needs_save mr)
  ∧ (is_error_status (status_code r) = true →
       update source target title description (mr, w)
       = (Raised (HTTPError (status_code r)), (mr1, w1)))
  ∧ (is_error_status (status_code r) = false →
       ∀ d iid web_url, body r = Some (JObject d) →
         lookup_iid d = Some iid → lookup_web_url d = Some web_url →
         update source target title description (mr, w)
         = (Returned tt, (with_web_url web_url (with_iid iid mr1), w1)))
  ∧ (∀ o mr' w', update source target title description (mr, w) = (o, (mr', w')) →
       _needs_save mr' = _needs_save mr
       ∧ log w' = log w ++ [Request PUT (iid_url w mr1) (Some (update_data mr1))]).
Proof.
  intros Hp mr1 w1.
  assert (_needs_save mr1 = _needs_save mr) as Hns.
  { unfold mr1. by destruct source, target, title, description. }
  split; [|split; [|split]].
  - unfold mr1. by destruct source, target, title, description.
  - intros He. rewrite update_run, Hp. fold mr1 w1. by rewrite He.
  - intros He d iid web_url Hb Hi Hw. rewrite update_run, Hp. fold mr1 w1.
    rewrite He, Hb. simpl. unfold getitem_iid, getitem_web_url. by rewrite Hi, Hw.
  - intros o mr' w'. rewrite update_run, Hp. fold mr1 w1.
    destruct (is_error_status (status_code r)); [by intros [= <- <- <-]|].
    destruct (body r) as [[d|l]|]; simpl; try by intros [= <- <- <-].
    unfold getitem_iid, getitem_web_url.
    destruct (lookup_iid d); [|by intros [= <- <- <-]].
    destruct (lookup_web_url d); by intros [= <- <- <-].
Qed.

(** [update_not_atomic] on a retitling that the remote forbids. *)
Lemma update_not_atomic_witness :
  update None None (Some "New title") None
    (with_iid (Some "7") (mk_mr "feat-1" "master"),
     example_world [Resp {| status_code := 403; body := None |}])
  = (Raised (HTTPError 403),
     (overridden None None (Some "New title") None
        (with_iid (Some "7") (mk_mr "feat-1" "master")),
      answered
        (Request PUT
           (iid_url (example_world [Resp {| status_code := 403; body := None |}])
              (overridden None None (Some "New title") None
                 (with_iid (Some "7") (mk_mr "feat-1" "master"))))
           (Some (update_data
              (overridden None None (Some "New title") None
                 (with_iid (Some "7") (mk_mr "feat-1" "master"))))))
        (example_world [Resp {| status_code := 403; body := None |}]))).
Proof.
  exact (proj1 (proj2
    (update_not_atomic None None (Some "New title") None
       (with_iid (Some "7") (mk_mr "feat-1" "master"))
       (example_world [Resp {| status_code := 403; body := None |}])
       {| status_code := 403; body := None |} [] eq_refl)) eq_refl).
Defined.

(** [create] step by step. *)
Lemma create_run (mr : MergeRequest) (w : world) :
  let w1 := answered (Request POST (mr_url w) (Some (create_data w mr))) w in
  create (mr, w) =
  match pending w with
  | [] => (Blocked, (mr, w1))
  | Fails e :: _ =>
      match e with
      | HTTPError st =>
          (Raised (SystemExit (ErrorCreating (_source_branch mr) (_target_branch mr)
                                 st (inl (create_data w mr)))), (mr, w1))
      | _ => (Raised e, (mr, w1))
      end
  | Resp r :: _ =>
      match body r with
      | None => (Raised JSONDecodeError, (mr, w1))
      | Some data =>
          if is_error_status (status_code r)
          then (Raised (SystemExit (ErrorCreating (_source_branch mr)
                          (_target_branch mr) (status_code r) (inr data))), (mr, w1))
          else match getitem_iid data (mr, w1) with
               | (Returned iid, _) =>
                   match getitem_web_url data (with_iid iid mr, w1) with
                   | (Returned web_url, _) =>
                       (Returned tt, (with_web_url web_url (with_iid iid mr), w1))
                   | (Raised e, s) => (Raised e, s)
                   | (Blocked, s) => (Blocked, s)
                   end
               | (Raised e, s) => (Raised e, s)
               | (Blocked, s) => (Blocked, s)
               end
      end
  end.
Proof.
  destruct w as [url rsb [|[r|e] rest] lg]; run; try done.
  - destruct (body r) as [[d|l]|]; simpl; try done;
      destruct (is_error_status (status_code r)); try done.
    destruct (lookup_iid d); try done. by destruct (lookup_web_url d).
  - by destruct e.
Qed.

(** C9 fails on the code, which leaves the verdict on the status to
    [raise_for_status]: that raises from 400 to 599 only.  On a 304 [create]
    returns and takes [iid] and [web_url] from the body; and on a 502 whose
    body is no JSON the error is the decoder's, which carries neither the
    branches nor the body. *)
Lemma create_on_304_and_on_undecodable_502 :
  create (mk_mr "feat-1" "master",
          example_world
            [Resp {| status_code := 304;
                     body := Some (JObject [a_iid (Some "9"); a_web_url (Some "u")]) |}])
  = (Returned tt,
     (with_web_url (Some "u") (with_iid (Some "9") (mk_mr "feat-1" "master")),
      answered
        (Request POST "https://gitlab.example/api/v4/projects/1/merge_requests"
           (Some (create_data (example_world []) (mk_mr "feat-1" "master"))))
        (example_world
           [Resp {| status_code := 304;
                    body := Some (JObject [a_iid (Some "9"); a_web_url (Some "u")]) |}])))
  ∧ create (mk_mr "feat-1" "master",
            example_world [Resp {| status_code := 502; body := None |}])
    = (Raised JSONDecodeError,
       (mk_mr "feat-1" "master",
        answered
          (Request POST "https://gitlab.example/api/v4/projects/1/merge_requests"
             (Some (create_data (example_world []) (mk_mr "feat-1" "master"))))
          (example_world [Resp {| status_code := 502; body := None |}]))).
Proof. split; reflexivity. Qed.

(** C9, as the code has it.  [create] sends one POST and takes one reply.
    If the reply's body decodes and its status is from 400 to 599, it
    raises [SystemExit] with the two branches, the status and the decoded
    body, and the object is untouched; with any other status and a body
    that holds [iid] and [web_url] it takes the two from the body. *)
Theorem create_outcome (mr : MergeRequest) (w : world) (r : response)
    (rest : list reply) (data : json) :
  pending w = Resp r :: rest → body r = Some data →
  let w1 := answered (Request POST (mr_url w) (Some (create_data w mr))) w in
  (log w1 = log w ++ [Request POST (mr_url w) (Some (create_data w mr))]
   ∧ pending w1 = rest)
  ∧ (is_error_status (status_code r) = true →
       create (mr, w)
       = (Raised (SystemExit (ErrorCreating (_source_branch mr) (_target_branch mr)
                                (status_code r) (inr data))), (mr, w1)))
  ∧ (is_error_status (status_code r) = false →
       ∀ d iid web_url, data = JObject d →
         lookup_iid d = Some iid → lookup_web_url d = Some web_url →
         create (mr, w) = (Returned tt, (with_web_url web_url (with_iid iid mr), w1))).
Proof.
  intros Hp Hb w1. split; [|split].
  - unfold w1, answered. simpl. by rewrite Hp.
  - intros He. rewrite create_run, Hp, Hb. fold w1. by rewrite He.
  - intros He d iid web_url -> Hi Hw. rewrite create_run, Hp, Hb. fold w1.
    rewrite He. simpl. unfold getitem_iid, getitem_web_url. by rewrite Hi, Hw.
Qed.

(** [create_outcome] on a 409 with a JSON message. *)
Lemma create_outcome_witness :
  create (mk_mr "feat-1" "master",
          example_world
            [Resp {| status_code := 409;
                     body := Some (JObject [a_other "message" "exists"]) |}])
  = (Raised (SystemExit (ErrorCreating "feat-1" (Some "master") 409
                           (inr (JObject [a_other "message" "exists"])))),
     (mk_mr "feat-1" "master",
      answered
        (Request POST "https://gitlab.example/api/v4/projects/1/merge_requests"
           (Some (create_data (example_world []) (mk_mr "feat-1" "master"))))
        (example_world
           [Resp {| status_code := 409;
                    body := Some (JObject [a_other "message" "exists"]) |}]))).
Proof.
  exact (proj1 (proj2
    (create_outcome (mk_mr "feat-1" "master")
       (example_world
          [Resp {| status_code := 409;
                   body := Some (JObject [a_other "message" "exists"]) |}])
       {| status_code := 409; body := Some (JObject [a_other "message" "exists"]) |}
       [] (JObject [a_other "message" "exists"]) eq_refl eq_refl)) eq_refl).
Defined.

(** C8 fails on the code: only [merge] and [delete] test [iid].  On an MR
    that was never created they raise before any request; [update],
    [rebase], [refresh] and [get_commits] send their request, to a URL that
    ends in [None]. *)
Theorem iid_guard_only_in_merge_and_delete :
  let mr := mk_mr "feat-1" "master" in
  let w := example_world [Resp {| status_code := 404; body := None |}] in
  let url := "https://gitlab.example/api/v4/projects/1/merge_requests/None" in
  _iid mr = None
  ∧ merge (mr, w) = (Raised (ValueError "Must set iid before merging an MR!"), (mr, w))
  ∧ delete false (mr, w)
    = (Raised (ValueError "Must set iid before deleting an MR!"), (mr, w))
  ∧ update None None None None (mr, w)
    = (Raised (HTTPError 404),
       (mr, answered (Request PUT url (Some (update_data mr))) w))
  ∧ rebase (mr, w)
    = (Raised (HTTPError 404),
       (mr, answered (Request PUT (url +:+ "/rebase") None) w))
  ∧ refresh (mr, w)
    = (Raised (HTTPError 404), (mr, answered (Request GET url None) w))
  ∧ get_commits (mr, w)
    = (Raised (HTTPError 404),
       (mr, answered (Request GET (url +:+ "/commits") None) w)).
Proof. repeat split. Qed.

(** ** The retry loops *)

(** Every script of replies is a run of responses that keep a loop going,
    and a rest that does not start with such a response. *)
Lemma split_replies (P : response → Prop) `{!∀ r, Decision (P r)}
    (rs : list reply) :
  ∃ (again : list response) (tl : list reply),
    rs = (Resp <$> again) ++ tl ∧ Forall P again
    ∧ match tl with Resp r :: _ => ¬ P r | _ => True end.
Proof.
  induction rs as [|[r|e] rs (again & tl & -> & Hall & Htl)].
  - by exists [], [].
  - destruct (decide (P r)) as [Hr|Hr].
    + exists (r :: again), tl. by repeat split; [constructor|].
    + by exists [], (Resp r :: (Resp <$> again) ++ tl).
  - by exists [], (Fails e :: (Resp <$> again) ++ tl).
Qed.

Lemma world_eq (w w' : world) :
  mr_url w = mr_url w' → remove_source_branch w = remove_source_branch w' →
  pending w = pending w' → log w = log w' → w = w'.
Proof. destruct w, w'. simpl. by intros -> -> -> ->. Qed.

Lemma iterate_S {St V A} (n : nat) (body : V → prog St (V + A)) (v : V) (s : St) :
  iterate (S n) body v s =
  match body v s with
  | (Returned (inl v'), s') => iterate n body v' s'
  | (Returned (inr a), s') => (Returned a, s')
  | (Raised e, s') => (Raised e, s')
  | (Blocked, s') => (Blocked, s')
  end.
Proof.
  simpl. unfold mbind, prog_bind. by destruct (body v s) as [[[v'|a]|e|] s'].
Qed.

(** One round of [merge], by the reply it gets. *)
Lemma merge_attempt_run (url : string) (mr : MergeRequest) (w : world) :
  merge_attempt url tt (mr, w) =
  let w1 := answered (Request PUT url None) w in
  match pending w with
  | [] => (Blocked, (mr, w1))
  | Fails e :: _ => (Raised e, (mr, w1))
  | Resp r :: _ =>
      if decide (status_code r = codes_ok) then (Returned (inr tt), (mr, w1))
      else (Returned (inl tt), (mr, emit (Sleep 2000) w1))
  end.
Proof.
  destruct w as [u rsb [|[r|e] rest] lg]; run; try done.
  by destruct (decide (status_code r = codes_ok)).
Qed.

Lemma merge_loop (url : string) (again : list response) : ∀ n mr w tl,
  Forall (λ r, status_code r ≠ codes_ok) again →
  pending w = (Resp <$> again) ++ tl → length again < n →
  iterate n (merge_attempt url) tt (mr, w)
  = iterate (n - length again) (merge_attempt url) tt
      (mr, with_pending tl
             (emit_all (mjoin ((λ req, [req; Sleep 2000])
                               <$> replicate (length again) (Request PUT url None))) w)).
Proof.
  induction again as [|r again IH]; intros n mr w tl Hall Hp Hn.
  - simpl. rewrite Nat.sub_0_r. do 2 f_equal.
    apply world_eq; simpl; try done. by rewrite app_nil_r.
  - apply Forall_cons in Hall as [Hr Hall].
    destruct n as [|n]; [simpl in Hn; lia|].
    rewrite iterate_S, merge_attempt_run, Hp. simpl.
    destruct (decide (status_code r = codes_ok)) as [|_]; [done|].
    rewrite (IH n _ _ tl); [|done|by simpl; rewrite Hp|simpl in Hn; lia].
    replace (S n - length (r :: again)) with (n - length again) by (simpl; lia).
    do 2 f_equal. apply world_eq; simpl; try done.
    by rewrite <- !app_assoc.
Qed.

(** C5 fails on the code where success is read as any 2xx status: [merge]
    tests [status_code == requests.codes.ok], which is 200 alone.  After a
    204 it sleeps and sends its PUT again, and after a 201 with nothing
    more to come it is still waiting, a second PUT sent. *)
Lemma merge_resends_after_204 :
  merge (with_iid (Some "7") (mk_mr "feat-1" "master"),
         example_world [Resp {| status_code := 204; body := None |};
                        Resp {| status_code := 200; body := None |}])
  = (Returned tt,
     (with_iid (Some "7") (mk_mr "feat-1" "master"),
      emit_all
        [Request PUT "https://gitlab.example/api/v4/projects/1/merge_requests/7/merge"
           None;
         Sleep 2000;
         Request PUT "https://gitlab.example/api/v4/projects/1/merge_requests/7/merge"
           None]
        (example_world [])))
  ∧ merge (with_iid (Some "7") (mk_mr "feat-1" "master"),
           example_world [Resp {| status_code := 201; body := None |}])
    = (Blocked,
       (with_iid (Some "7") (mk_mr "feat-1" "master"),
        emit_all
          [Request PUT "https://gitlab.example/api/v4/projects/1/merge_requests/7/merge"
             None;
           Sleep 2000;
           Request PUT "https://gitlab.example/api/v4/projects/1/merge_requests/7/merge"
             None]
          (example_world []))).
Proof. split; reflexivity. Qed.

(** C5, as the code has it.  On an MR that has an [iid], [merge] sends its
    PUT again after each response whose status is not [requests.codes.ok]
    (200), another 2xx status included, with a sleep of two seconds in
    between.  Whatever the replies, they are a run [again] of
    such responses and a rest [tl], and [merge] has sent one PUT per response
    of [again], each followed by the sleep, and one more, and nothing after
    it.  It has returned exactly when [tl] starts with a 200; it raises only
    what the session itself raises, never on a status; and if the replies
    end with [again], it is still waiting, after one more PUT. *)
Theorem merge_retries_until_ok (mr : MergeRequest) (w : world) (iid : string) :
  _iid mr = Some iid →
  let put := Request PUT (iid_url w mr +:+ "/merge") None in
  ∃ (again : list response) (tl : list reply) (o : outcome unit),
    pending w = (Resp <$> again) ++ tl
    ∧ Forall (λ r, status_code r ≠ codes_ok) again
    ∧ merge (mr, w)
      = (o, (mr, with_pending (tail tl)
                   (emit_all (attempts 2000 (replicate (length again) put) put) w)))
    ∧ match tl with
      | [] => o = Blocked
      | Resp ok :: _ => status_code ok = codes_ok ∧ o = Returned tt
      | Fails e :: _ => o = Raised e
      end.
Proof.
  intros Hiid put.
  destruct (split_replies (λ r, status_code r ≠ codes_ok) (pending w))
    as (again & tl & Hp & Hall & Htl).
  assert (merge (mr, w)
          = iterate (S (length (pending w)))
              (merge_attempt (iid_url w mr +:+ "/merge")) tt (mr, w)) as ->.
  { unfold merge, while_true, mbind, prog_bind, get_self, globals.
    simpl. by rewrite Hiid. }
  rewrite (merge_loop _ again _ mr w tl Hall Hp)
    by (rewrite Hp, length_app, length_fmap; lia).
  replace (S (length (pending w)) - length again) with (S (length tl))
    by (rewrite Hp, length_app, length_fmap; lia).
  fold put. unfold attempts.
  rewrite iterate_S, merge_attempt_run. simpl.
  destruct tl as [|[ok|e] tl]; simpl.
  - exists again, [], Blocked. repeat split; try done.
    do 2 f_equal. apply world_eq; simpl; try done. by rewrite app_assoc.
  - destruct (decide (status_code ok = codes_ok)) as [Hok|Hok].
    + exists again, (Resp ok :: tl), (Returned tt). repeat split; try done.
      do 2 f_equal. apply world_eq; simpl; try done. by rewrite app_assoc.
    + by destruct Htl.
  - exists again, (Fails e :: tl), (Raised e). repeat split; try done.
    do 2 f_equal. apply world_eq; simpl; try done. by rewrite app_assoc.
Qed.

(** [merge_retries_until_ok] on a 405 followed by a 200. *)
Lemma merge_retries_until_ok_witness :
  ∃ (again : list response) (tl : list reply) (o : outcome unit),
    [Resp {| status_code := 405; body := None |};
     Resp {| status_code := 200; body := None |}]
    = (Resp <$> again) ++ tl
    ∧ Forall (λ r, status_code r ≠ codes_ok) again
    ∧ merge (with_iid (Some "7") (mk_mr "feat-1" "master"),
             example_world [Resp {| status_code := 405; body := None |};
                            Resp {| status_code := 200; body := None |}])
      = (o, (with_iid (Some "7") (mk_mr "feat-1" "master"),
             with_pending (tail tl)
               (emit_all
                  (attempts 2000
                     (replicate (length again)
                        (Request PUT
                           "https://gitlab.example/api/v4/projects/1/merge_requests/7/merge"
                           None))
                     (Request PUT
                        "https://gitlab.example/api/v4/projects/1/merge_requests/7/merge"
                        None))
                  (example_world [Resp {| status_code := 405; body := None |};
                                  Resp {| status_code := 200; body := None |}]))))
    ∧ match tl with
      | [] => o = Blocked
      | Resp ok :: _ => status_code ok = codes_ok ∧ o = Returned tt
      | Fails e :: _ => o = Raised e
      end.
Proof.
  exact (merge_retries_until_ok (with_iid (Some "7") (mk_mr "feat-1" "master"))
           (example_world [Resp {| status_code := 405; body := None |};
                           Resp {| status_code := 200; body := None |}])
           "7" eq_refl).
Defined.

(** The sha of the object after [_set_data]: the one the data holds, or the
    one the object had. *)
Lemma refreshed_sha (d : json_data) (mr : MergeRequest) :
  _sha (refreshed d mr) = from_option Some (_sha mr) (lookup_sha d).
Proof.
  unfold refreshed, lookup_sha. simpl.
  induction d as [|a d IH] using rev_ind; [done|].
  rewrite foldl_app, omap_app. simpl.
  destruct a; simpl; rewrite ?app_nil_r; try done.
  by rewrite last_snoc.
Qed.

Lemma refresh_run (mr : MergeRequest) (w : world) :
  refresh (mr, w) =
  let w1 := answered (Request GET (iid_url w mr) None) w in
  match pending w with
  | [] => (Blocked, (mr, w1))
  | Fails e :: _ => (Raised e, (mr, w1))
  | Resp r :: _ =>
      if is_error_status (status_code r)
      then (Raised (HTTPError (status_code r)), (mr, w1))
      else match body r with
           | None => (Raised JSONDecodeError, (mr, w1))
           | Some (JObject d) => (Returned tt, (refreshed d mr, w1))
           | Some (JArray []) => (Returned tt, (refreshed [] mr, w1))
           | Some (JArray (_ :: _)) => (Raised TypeError, (mr, w1))
           end
  end.
Proof.
  destruct w as [u rsb [|[r|e] rest] lg]; run; try done.
  destruct (is_error_status (status_code r)); [done|].
  by destruct (body r) as [[d|[|? ?]]|].
Qed.

Lemma poll_once_run (commit : Commit.t) (mr : MergeRequest) (w : world) :
  poll_once commit tt (mr, w) =
  match refresh (mr, w) with
  | (Returned _, (mr1, w1)) =>
      match _sha mr1 with
      | None => (Raised AttributeError, (mr1, w1))
      | Some sha =>
          if decide (sha = Some (Commit.hexsha (Commit.commit commit)))
          then (Returned (inr tt), (mr1, w1))
          else (Returned (inl tt), (mr1, emit (Sleep 500) w1))
      end
  | (Raised e, s) => (Raised e, s)
  | (Blocked, s) => (Blocked, s)
  end.
Proof.
  unfold poll_once, mbind, prog_bind, get_self. 
  destruct (refresh (mr, w)) as [[[]|e|] [mr1 w1]]; try done. simpl.
  destruct (_sha mr1) as [sha|]; [|done].
  by destruct (decide (sha = Some (Commit.hexsha (Commit.commit commit)))).
Qed.

(** The loop returns only with the expected sha on the object. *)
Lemma poll_sound (commit : Commit.t) (n : nat) : ∀ mr w mr' w',
  iterate n (poll_once commit) tt (mr, w) = (Returned tt, (mr', w')) →
  _sha mr' = Some (Some (Commit.hexsha (Commit.commit commit))).
Proof.
  induction n as [|n IH]; intros mr w mr' w' H; [done|].
  rewrite iterate_S, poll_once_run in H.
  destruct (refresh (mr, w)) as [[[]|e|] [mr1 w1]]; try done.
  destruct (_sha mr1) as [sha|] eqn:Hsha; [|done].
  destruct (decide (sha = Some (Commit.hexsha (Commit.commit commit)))) as [->|_].
  - by simplify_eq.
  - destruct n; [done|]. by eapply IH.
Qed.

Lemma poll_once_reported (commit : Commit.t) (mr : MergeRequest) (w : world)
    (r : response) (rest : list reply) (sha : string) :
  pending w = Resp r :: rest → reports_sha sha r →
  ∃ mr1, _sha mr1 = Some (Some sha) ∧
    poll_once commit tt (mr, w) =
    let w1 := answered (Request GET (iid_url w mr) None) w in
    if decide (sha = Commit.hexsha (Commit.commit commit))
    then (Returned (inr tt), (mr1, w1))
    else (Returned (inl tt), (mr1, emit (Sleep 500) w1)).
Proof.
  intros Hp (Hst & d & Hb & Hsha). exists (refreshed d mr).
  assert (_sha (refreshed d mr) = Some (Some sha)) as Hs.
  { by rewrite refreshed_sha, Hsha. }
  split; [done|].
  rewrite poll_once_run, refresh_run, Hp. cbv beta iota zeta.
  rewrite Hst, Hb. cbv beta iota zeta. rewrite Hs.
  destruct (decide (sha = Commit.hexsha (Commit.commit commit))) as [->|Hne].
  - by rewrite decide_True.
  - rewrite decide_False; [done|congruence].
Qed.

Lemma poll_loop (commit : Commit.t) (stale : list response) : ∀ n mr w tl,
  Forall (reports_other_sha (Commit.hexsha (Commit.commit commit))) stale →
  pending w = (Resp <$> stale) ++ tl → length stale < n →
  ∃ mr' gets,
    length gets = length stale ∧ Forall is_get gets
    ∧ iterate n (poll_once commit) tt (mr, w)
      = iterate (n - length stale) (poll_once commit) tt
          (mr', with_pending tl
                  (emit_all (mjoin ((λ req, [req; Sleep 500]) <$> gets)) w)).
Proof.
  induction stale as [|r stale IH]; intros n mr w tl Hall Hp Hn.
  - exists mr, []. repeat split; [done|]. simpl. rewrite Nat.sub_0_r.
    do 2 f_equal. apply world_eq; simpl; try done. by rewrite app_nil_r.
  - apply Forall_cons in Hall as [(sha & Hne & Hr) Hall].
    destruct n as [|n]; [simpl in Hn; lia|].
    destruct (poll_once_reported commit mr w r _ sha Hp Hr)
      as (mr1 & _ & Hrun).
    rewrite iterate_S, Hrun. simpl.
    destruct (decide (sha = Commit.hexsha (Commit.commit commit))) as [|_]; [done|].
    destruct (IH n mr1
                (emit (Sleep 500) (answered (Request GET (iid_url w mr) None) w)) tl)
      as (mr' & gets & Hlen & Hgets & ->); [done|by simpl; rewrite Hp|simpl in Hn; lia|].
    exists mr', (Request GET (iid_url w mr) None :: gets).
    repeat split; [by simpl; rewrite Hlen|by constructor|].
    replace (S n - length (r :: stale)) with (n - length stale) by (simpl; lia).
    do 2 f_equal. apply world_eq; simpl; try done.
    by rewrite <- !app_assoc.
Qed.

(** C6. [wait_until_stable] returns only when the sha on the refreshed
    object is the commit's.  While the remote reports another sha it goes on:
    after a run [stale] of such responses it has sent one GET per response,
    each followed by a sleep of 500 ms, and one more GET, and nothing after
    it.  It has returned if the next response reports the commit's sha, it
    is still waiting if there is no next reply, and it raises what the
    session raises. *)
Theorem wait_until_stable_polls (commit : Commit.t) (mr : MergeRequest) (w : world) :
  let hexsha := Commit.hexsha (Commit.commit commit) in
  (∀ mr' w', wait_until_stable commit (mr, w) = (Returned tt, (mr', w')) →
     _sha mr' = Some (Some hexsha))
  ∧ ∀ (stale : list response) (tl : list reply),
      pending w = (Resp <$> stale) ++ tl →
      Forall (reports_other_sha hexsha) stale →
      ∃ mr' gets final,
        length gets = length stale ∧ Forall is_get (final :: gets)
        ∧ let w' := with_pending (tail tl) (emit_all (attempts 500 gets final) w) in
          match tl with
          | [] => wait_until_stable commit (mr, w) = (Blocked, (mr', w'))
          | Fails e :: _ => wait_until_stable commit (mr, w) = (Raised e, (mr', w'))
          | Resp r :: _ =>
              reports_sha hexsha r →
              ∃ mr'', wait_until_stable commit (mr, w) = (Returned tt, (mr'', w'))
          end.
Proof.
  intros hexsha. split.
  - intros mr' w'. unfold wait_until_stable, while_true. apply poll_sound.
  - intros stale tl Hp Hall.
    destruct (poll_loop commit stale (S (length (pending w))) mr w tl Hall Hp)
      as (mr' & gets & Hlen & Hgets & Hrun).
    { rewrite Hp, length_app, length_fmap. lia. }
    exists mr', gets, (Request GET (iid_url w mr') None).
    split; [done|]. split; [by constructor|]. cbv zeta.
    assert (wait_until_stable commit (mr, w)
            = iterate (S (length tl)) (poll_once commit) tt
                (mr', with_pending tl
                        (emit_all (mjoin ((λ req, [req; Sleep 500]) <$> gets)) w)))
      as ->.
    { unfold wait_until_stable, while_true.
      change (pending (net (mr, w))) with (pending w). rewrite Hrun.
      by replace (S (length (pending w)) - length stale) with (S (length tl))
        by (rewrite Hp, length_app, length_fmap; lia). }
    unfold attempts.
    destruct tl as [|[r|e] tl].
    + rewrite iterate_S, poll_once_run, refresh_run. simpl.
      do 2 f_equal. apply world_eq; simpl; try done. by rewrite app_assoc.
    + intros Hr.
      destruct (poll_once_reported commit mr'
                  (with_pending (Resp r :: tl)
                     (emit_all (mjoin ((λ req, [req; Sleep 500]) <$> gets)) w))
                  r tl hexsha eq_refl Hr) as (mr'' & _ & Hstep).
      exists mr''. rewrite iterate_S, Hstep. cbv beta iota zeta.
      destruct (decide (hexsha = Commit.hexsha (Commit.commit commit))); [|done].
      do 2 f_equal. apply world_eq; simpl; try done. by rewrite app_assoc.
    + rewrite iterate_S, poll_once_run, refresh_run. simpl.
      do 2 f_equal. apply world_eq; simpl; try done. by rewrite app_assoc.
Qed.

(** [wait_until_stable_polls] on a stale sha followed by the commit's. *)
Lemma wait_until_stable_polls_witness :
  ∃ mr' w',
    wait_until_stable
      {| Commit.commit := {| Commit.message := "Fix"; Commit.hexsha := "c0ffee" |};
         Commit.source_branch := "feat-1"; Commit.target_branch := "master" |}
      (with_iid (Some "7") (mk_mr "feat-1" "master"),
       example_world
         [Resp {| status_code := 200; body := Some (JObject [a_sha (Some "0ld")]) |};
          Resp {| status_code := 200; body := Some (JObject [a_sha (Some "c0ffee")]) |}])
    = (Returned tt, (mr', w'))
    ∧ _sha mr' = Some (Some "c0ffee").
Proof.
  pose (c := {| Commit.commit := {| Commit.message := "Fix"; Commit.hexsha := "c0ffee" |};
                Commit.source_branch := "feat-1"; Commit.target_branch := "master" |}).
  pose (r0 := {| status_code := 200; body := Some (JObject [a_sha (Some "0ld")]) |}).
  pose (r1 := {| status_code := 200; body := Some (JObject [a_sha (Some "c0ffee")]) |}).
  destruct (wait_until_stable_polls c (with_iid (Some "7") (mk_mr "feat-1" "master"))
              (example_world [Resp r0; Resp r1])) as [Hsound Hrun].
  destruct (Hrun [r0] [Resp r1] eq_refl) as (mr' & gets & final & _ & _ & H).
  { constructor; [|constructor]. exists "0ld". split; [discriminate|].
    split; [reflexivity|]. by exists [a_sha (Some "0ld")]. }
  destruct H as [mr'' H].
  { split; [reflexivity|]. by exists [a_sha (Some "c0ffee")]. }
  exists mr'', (with_pending (tail [Resp r1])
                 (emit_all (attempts 500 gets final) (example_world [Resp r0; Resp r1]))).
  split; [exact H|]. exact (Hsound _ _ H).
Defined.

(** ** Listing the open merge requests *)

Lemma fetch_page_run (page : nat) (results : list response) (w : world) :
  fetch_page 50 (page, results) w =
  let w1 := answered (Request GET (list_url w page 50) None) w in
  match pending w with
  | [] => (Blocked, w1)
  | Fails e :: _ =>
      if listing_catches e
      then (Raised (SystemExit (ExitCode 1)), emit (Print e) w1)
      else (Raised e, w1)
  | Resp r :: _ =>
      if is_error_status (status_code r)
      then (Raised (SystemExit (ExitCode 1)),
            emit (Print (HTTPError (status_code r))) w1)
      else match body r with
           | None => (Raised JSONDecodeError, w1)
           | Some j =>
               if falsy j then (Returned (inr results), w1)
               else (Returned (inl (page + 1, results ++ [r])), w1)
           end
  end.
Proof.
  destruct w as [u rsb [|[r|e] rest] lg]; run; try done.
  - destruct (is_error_status (status_code r)); [done|].
    destruct (body r) as [j|]; [|done]. by destruct (falsy j).
  - by destruct e.
Qed.

Lemma list_loop (pages : list response) : ∀ n page results w tl,
  Forall (λ r, nonempty_page r = true) pages →
  pending w = (Resp <$> pages) ++ tl → length pages < n →
  iterate n (fetch_page 50) (page, results) w
  = iterate (n - length pages) (fetch_page 50)
      (page + length pages, results ++ pages)
      (with_pending tl (emit_all (page_requests w page (length pages)) w)).
Proof.
  induction pages as [|r pages IH]; intros n page results w tl Hall Hp Hn.
  - simpl. rewrite Nat.sub_0_r, Nat.add_0_r, !app_nil_r. f_equal.
    apply world_eq; simpl; try done. by rewrite app_nil_r.
  - apply Forall_cons in Hall as [Hr Hall].
    destruct n as [|n]; [simpl in Hn; lia|].
    unfold nonempty_page in Hr. apply andb_true_iff in Hr as [Hst Hb].
    apply negb_true_iff in Hst.
    destruct (body r) as [j|] eqn:Hj; [|done]. apply negb_true_iff in Hb.
    rewrite iterate_S, fetch_page_run, Hp. simpl. rewrite Hst, Hj, Hb.
    rewrite (IH n _ _ _ tl); [|done|by simpl; rewrite Hp|simpl in Hn; lia].
    replace (S n - length (r :: pages)) with (n - length pages) by (simpl; lia).
    replace (page + 1 + length pages) with (page + length (r :: pages))
      by (simpl; lia).
    rewrite <- app_assoc. simpl. f_equal.
    apply world_eq; simpl; try done.
    unfold page_requests, list_url. simpl.
    rewrite <- !app_assoc. simpl. by rewrite Nat.add_1_r.
Qed.

(** C7. The listing asks for page 1, 2, ... with 50 per page.  Whatever the
    replies, they are a run [pages] of pages that are not empty and a rest
    [tl]; the listing has asked for one page more than [pages] holds and
    taken the first reply of [tl], but nothing after it.  If that reply is
    a page whose body is an empty collection, the listing returns [pages],
    in order, and that page is not among them.  If it is an error status,
    or the [HTTPError] or [InvalidHeader] of the session, the error is
    printed and the process exits with status 1; any other exception of the
    session, or a body that does not decode, is raised: nothing is
    returned. *)
Theorem listing_pages (w : world) :
  ∃ (pages : list response) (tl : list reply)
    (o : outcome (list response)) (printed : list event),
    pending w = (Resp <$> pages) ++ tl
    ∧ Forall (λ r, nonempty_page r = true) pages
    ∧ _get_open_merge_requests w
      = (o, with_pending (tail tl)
              (emit_all (page_requests w 1 (S (length pages)) ++ printed) w))
    ∧ match tl with
      | [] => o = Blocked ∧ printed = []
      | Fails e :: _ =>
          if listing_catches e
          then o = Raised (SystemExit (ExitCode 1)) ∧ printed = [Print e]
          else o = Raised e ∧ printed = []
      | Resp r :: _ =>
          if is_error_status (status_code r)
          then o = Raised (SystemExit (ExitCode 1))
               ∧ printed = [Print (HTTPError (status_code r))]
          else match body r with
               | None => o = Raised JSONDecodeError ∧ printed = []
               | Some j => falsy j = true ∧ o = Returned pages ∧ printed = []
               end
      end.
Proof.
  destruct (split_replies (λ r, nonempty_page r = true) (pending w))
    as (pages & tl & Hp & Hall & Htl).
  assert (_get_open_merge_requests w
          = iterate (S (length tl)) (fetch_page 50) (1 + length pages, pages)
              (with_pending tl (emit_all (page_requests w 1 (length pages)) w)))
    as Hrun.
  { unfold _get_open_merge_requests, while_true.
    change (pending (net w)) with (pending w).
    rewrite (list_loop pages _ 1 [] w tl Hall Hp)
      by (rewrite Hp, length_app, length_fmap; lia).
    by replace (S (length (pending w)) - length pages) with (S (length tl))
      by (rewrite Hp, length_app, length_fmap; lia). }
  rewrite iterate_S, fetch_page_run in Hrun. simpl in Hrun.
  assert (∀ extra,
    emit_all (page_requests w 1 (S (length pages)) ++ extra) w
    = emit_all extra (emit (Request GET (list_url w (S (length pages)) 50) None)
                        (emit_all (page_requests w 1 (length pages)) w))) as Hlog.
  { intros extra. apply world_eq; try done. cbn [log emit_all emit].
    unfold page_requests. rewrite seq_S, fmap_app. cbn [fmap list_fmap].
    by rewrite <- !app_assoc. }
  exists pages, tl.
  destruct tl as [|[r|e] tl]; simpl in Hrun.
  - exists Blocked, []. repeat split; try done.
    rewrite Hrun, Hlog; f_equal; apply world_eq; simpl; by rewrite ?app_nil_r.
  - destruct (is_error_status (status_code r)) eqn:Hst.
    + exists (Raised (SystemExit (ExitCode 1))), [Print (HTTPError (status_code r))].
      repeat split; try done.
      rewrite Hrun, Hlog; f_equal; apply world_eq; simpl; by rewrite ?app_nil_r.
    + destruct (body r) as [j|] eqn:Hj.
      * destruct (falsy j) eqn:Hf.
        -- exists (Returned pages), []. repeat split; try done.
           rewrite Hrun, Hlog; f_equal; apply world_eq; simpl; by rewrite ?app_nil_r.
        -- exfalso. apply Htl. unfold nonempty_page. by rewrite Hst, Hj, Hf.
      * exists (Raised JSONDecodeError), []. repeat split; try done.
        rewrite Hrun, Hlog; f_equal; apply world_eq; simpl; by rewrite ?app_nil_r.
  - destruct (listing_catches e) eqn:He.
    + exists (Raised (SystemExit (ExitCode 1))), [Print e].
      repeat split; try done.
      rewrite Hrun, Hlog; f_equal; apply world_eq; simpl; by rewrite ?app_nil_r.
    + exists (Raised e), []. repeat split; try done.
      rewrite Hrun, Hlog; f_equal; apply world_eq; simpl; by rewrite ?app_nil_r.
Qed.

(** One page of two MRs, then an empty page: the listing returns the first
    page and leaves the reply after the empty page untouched. *)
Example listing_one_page :
  let page1 := {| status_code := 200;
                  body := Some (JArray [[a_iid (Some "1")]; [a_iid (Some "2")]]) |} in
  let empty := {| status_code := 200; body := Some (JArray []) |} in
  ∃ w', _get_open_merge_requests (example_world [Resp page1; Resp empty; Resp page1])
        = (Returned [page1], w')
        ∧ pending w' = [Resp page1]
        ∧ log w' = page_requests (example_world []) 1 2.
Proof. eexists. by vm_compute. Qed.

(** * Further properties *)

(** ** The chain builder, beyond the specification *)

(** Of chains that start at a root, the roots are the heads. *)
Lemma filter_roots_join (mrs : list MergeRequest) (cs : list (list MergeRequest)) :
  Forall (rooted_chain mrs) cs →
  (∀ c x, c ∈ cs → x ∈ c → x ∈ mrs) →
  filter (not_in_source_branches (source_branches mrs)) (mjoin cs) = omap head cs.
Proof.
  induction cs as [|c cs IH]; intros Hcs Hin; [done|].
  apply Forall_cons in Hcs as [(r & t & -> & Hroot & Hl) Hcs].
  simpl. rewrite filter_cons_True by done.
  rewrite filter_app, IH; [|done|by intros c x ?; apply Hin; right].
  assert (filter (not_in_source_branches (source_branches mrs)) t = []) as ->; [|done].
  apply (chain_tail_not_root mrs) in Hl.
  - clear -Hl. induction Hl as [|y t Hy _ IH]; [done|].
    by rewrite filter_cons_False.
  - apply Forall_forall. intros z Hz. apply (Hin (r :: t)); [by left|done].
Qed.

Lemma source_branches_perm (mrs l : list MergeRequest) :
  mrs ≡ₚ l → source_branches mrs = source_branches l.
Proof. intros H. unfold source_branches. by rewrite H. Qed.

(** On chains that are laid end to end the builder changes nothing. *)
Lemma chain_of_join (cs : list (list MergeRequest)) (depth : nat) :
  NoDup (source_branch <$> mjoin cs) →
  Forall (rooted_chain (mjoin cs)) cs →
  length (mjoin cs) ≤ depth →
  get_merge_request_chain depth (mjoin cs) = Some (mjoin cs).
Proof.
  intros Hnd Hcs Hlen.
  destruct (chain_builder_returns (mjoin cs) depth Hnd Hlen) as [-> _].
  unfold roots. rewrite (filter_roots_join _ cs Hcs).
  - rewrite fmap_omap_head_id; [done|]. intros c Hc.
    destruct (chain_from_head (mjoin cs) cs Hnd (reflexivity _) Hcs depth c Hlen Hc)
      as (r & Hr & Hin).
    exists r. split; [done|]. unfold chain_from. by rewrite Hin.
  - intros c x Hc Hx. apply list_elem_of_join. eauto.
Qed.

(** X2. An input that is already in chain order (chain after chain, each
    from its root on, with pairwise distinct source branches) comes back
    unchanged. *)
Theorem chain_in_order_unchanged (mrs : list MergeRequest)
    (cs : list (list MergeRequest)) (depth : nat) :
  mrs = mjoin cs →
  NoDup (source_branch <$> mrs) →
  Forall (rooted_chain mrs) cs →
  length mrs ≤ depth →
  get_merge_request_chain depth mrs = Some mrs.
Proof. intros ->. apply chain_of_join. Qed.

(** [chain_in_order_unchanged] on two stacks. *)
Lemma chain_in_order_unchanged_witness :
  get_merge_request_chain 3
    [mk_mr "feat-1" "master"; mk_mr "feat-2" "feat-1"; mk_mr "fix-1" "stable"]
  = Some [mk_mr "feat-1" "master"; mk_mr "feat-2" "feat-1"; mk_mr "fix-1" "stable"].
Proof.
  apply (chain_in_order_unchanged _
    [[mk_mr "feat-1" "master"; mk_mr "feat-2" "feat-1"]; [mk_mr "fix-1" "stable"]] 3).
  - reflexivity.
  - compute_done.
  - repeat constructor; eexists _, _; (split; [reflexivity|]); split;
      try compute_done; simpl; tauto.
  - simpl. lia.
Defined.

(** X3. The builder is idempotent on well-formed input: what it returns
    for MRs that form one linked list per root, it returns again when it is
    given its own result. *)
Theorem chain_idempotent (mrs : list MergeRequest)
    (cs : list (list MergeRequest)) (depth : nat) :
  NoDup (source_branch <$> mrs) →
  mrs ≡ₚ mjoin cs →
  Forall (rooted_chain mrs) cs →
  length mrs ≤ depth →
  ∃ l, get_merge_request_chain depth mrs = Some l
       ∧ get_merge_request_chain depth l = Some l.
Proof.
  intros Hnd Hperm Hcs Hlen.
  destruct (chain_builder_returns mrs depth Hnd Hlen) as [Hres _].
  set (cs' := chain_from depth (mrs_dict mrs) <$> roots mrs) in *.
  assert (cs' ≡ₚ cs) as Hcs'.
  { unfold cs'. rewrite (roots_heads mrs cs Hperm Hcs).
    rewrite fmap_omap_head_id; [done|]. intros c Hc.
    destruct (chain_from_head mrs cs Hnd Hperm Hcs depth c Hlen Hc) as (r & Hr & Hin).
    exists r. split; [done|]. unfold chain_from. by rewrite Hin. }
  assert (mrs ≡ₚ mjoin cs') as Hp' by by rewrite Hcs'.
  exists (mjoin cs'). split; [done|]. apply chain_of_join.
  - by rewrite <- Hp'.
  - apply Forall_forall. intros c Hc.
    rewrite Hcs' in Hc. apply (proj1 (Forall_forall _ _) Hcs) in Hc
      as (r & t & -> & Hroot & Hl).
    exists r, t. split; [done|]. split; [|done].
    by rewrite <- (source_branches_perm mrs (mjoin cs') Hp').
  - by rewrite <- Hp'.
Qed.

(** [chain_idempotent] on scenario A of the specification. *)
Lemma chain_idempotent_witness :
  ∃ l, get_merge_request_chain 3
         [mk_mr "feat-3" "feat-2"; mk_mr "feat-1" "master"; mk_mr "feat-2" "feat-1"]
       = Some l
       ∧ get_merge_request_chain 3 l = Some l.
Proof.
  apply (chain_idempotent _
    [[mk_mr "feat-1" "master"; mk_mr "feat-2" "feat-1"; mk_mr "feat-3" "feat-2"]] 3).
  - compute_done.
  - simpl. apply Permutation_cons_append.
  - constructor; [|constructor]. eexists _, _. split; [reflexivity|]. split.
    + compute_done.
    + simpl. tauto.
  - simpl. lia.
Defined.

Lemma trail_mid (mrs l1 : list MergeRequest) : ∀ y l2,
  trail mrs (l1 ++ y :: l2) →
  ¬ not_in_source_branches (source_branches mrs) y →
  ∃ x l2', l2 = x :: l2' ∧ target_branch y = Some (source_branch x).
Proof.
  induction l1 as [|a l1 IH]; intros y l2 Ht Hy; simpl in Ht.
  - inversion Ht as [|r l _ Hroot|y' x l _ Hyx]; simplify_eq; [done|by eauto].
  - inversion Ht as [|r l Hl _ [Ha Heq]|y' x l Hl _ [Ha Heq]].
    + by apply IH.
    + apply IH; [|done]. by rewrite <- Heq.
Qed.

Lemma trail_NoDup (mrs l : list MergeRequest) :
  NoDup (source_branch <$> mrs) → trail mrs l → (∀ x, x ∈ l → x ∈ mrs) →
  NoDup (filter (not_in_source_branches (source_branches mrs)) l) → NoDup l.
Proof.
  intros Hnd Ht. induction Ht as [|r l Ht IH Hroot|y x l Ht IH Hyx]; intros Hin Hf.
  - constructor.
  - rewrite filter_cons_True in Hf by done. apply NoDup_cons in Hf as [Hr Hf].
    apply NoDup_cons. split.
    + intros Hrl. apply Hr, list_elem_of_filter. by split.
    + apply IH; [|done]. intros z Hz. apply Hin. by right.
  - assert (x ∈ mrs) as Hx by (apply Hin; right; by left).
    assert (¬ not_in_source_branches (source_branches mrs) y) as Hy
      by by eapply targets_member_not_root.
    rewrite filter_cons_False in Hf by done.
    assert (NoDup (x :: l)) as Hxl.
    { apply IH; [|done]. intros z Hz. apply Hin. by right. }
    apply NoDup_cons. split; [|done]. intros Hyl.
    apply list_elem_of_split in Hyl as (l1 & l2 & Heq).
    rewrite Heq in Ht. destruct (trail_mid _ _ _ _ Ht Hy) as (x' & l2' & -> & Hyx').
    assert (x' = x) as ->.
    { apply (source_branch_inj mrs); [done| |done|congruence].
      apply Hin. right. rewrite Heq, !elem_of_app. right. right. by left. }
    apply NoDup_cons in Hxl as [Hxl _]. apply Hxl.
    destruct l1 as [|a l1]; simplify_eq/=.
    + by left.
    + rewrite !elem_of_app. right. right. by left.
Qed.

Lemma trail_chain (mrs rest : list MergeRequest) : ∀ x l,
  trail mrs (x :: l) → linked (x :: rest) → trail mrs (reverse rest ++ x :: l).
Proof.
  induction rest as [|y rest IH]; intros x l Ht Hl; [done|].
  apply linked_cons_cons in Hl as [Hyx Hl].
  rewrite reverse_cons, <- app_assoc. simpl. apply IH; [|done]. by constructor.
Qed.

Lemma trail_join (mrs : list MergeRequest) (cs : list (list MergeRequest)) : ∀ l,
  Forall (rooted_chain mrs) cs → trail mrs l → trail mrs (reverse (mjoin cs) ++ l).
Proof.
  induction cs as [|c cs IH]; intros l Hcs Ht; [done|].
  apply Forall_cons in Hcs as [(r & t & -> & Hroot & Hl) Hcs].
  simpl. rewrite reverse_cons, reverse_app, <- !app_assoc. apply IH; [done|].
  simpl. apply trail_chain; [|done]. by constructor.
Qed.

(** What the builder returns with pairwise distinct source branches, whatever
    the links: chains from the roots, made of members, with no MR twice. *)
Lemma builder_chains (mrs : list MergeRequest) (depth : nat) :
  NoDup (source_branch <$> mrs) → length mrs ≤ depth →
  let cs := chain_from depth (mrs_dict mrs) <$> roots mrs in
  get_merge_request_chain depth mrs = Some (mjoin cs)
  ∧ Forall (rooted_chain mrs) cs
  ∧ (∀ m, m ∈ mjoin cs → m ∈ mrs)
  ∧ NoDup (mjoin cs).
Proof.
  intros Hnd Hlen cs.
  destruct (chain_builder_returns mrs depth Hnd Hlen) as [Hres Hroots].
  assert (Forall (rooted_chain mrs) cs) as Hcs.
  { apply Forall_fmap, Forall_forall. intros r Hr. simpl.
    pose proof (Hroots r Hr) as Hin.
    apply inner_shape in Hin as (rest & -> & Hl & _).
    exists r, rest. split; [done|]. split; [|done].
    by apply roots_member in Hr as [_ ?]. }
  assert (∀ c x, c ∈ cs → x ∈ c → x ∈ mrs) as Hmem.
  { intros c x Hc Hx. apply list_elem_of_fmap in Hc as (r & -> & Hr).
    pose proof (Hroots r Hr) as Hin.
    apply inner_shape in Hin as (rest & Heq & _ & Hall).
    rewrite Heq in Hx. apply elem_of_cons in Hx as [->|Hx].
    - by apply roots_member in Hr as [? _].
    - by apply (proj1 (Forall_forall _ _) Hall). }
  assert (∀ m, m ∈ mjoin cs → m ∈ mrs) as Hsub.
  { intros m (c & Hm & Hc)%list_elem_of_join. by eapply Hmem. }
  repeat split; try done.
  rewrite <- (reverse_Permutation (mjoin cs)).
  rewrite <- (app_nil_r (reverse (mjoin cs))).
  apply (trail_NoDup mrs); [done| | |].
  - apply trail_join; [done|constructor].
  - intros x. rewrite app_nil_r, elem_of_reverse. apply Hsub.
  - rewrite app_nil_r.
    eapply NoDup_Permutation_proper;
      [apply filter_Permutation, reverse_Permutation|].
    rewrite (filter_roots_join mrs cs Hcs Hmem).
    assert (omap head cs = roots mrs) as ->.
    { rewrite <- (filter_roots_join mrs cs Hcs Hmem).
      unfold cs. clear -Hroots Hnd. 
      assert (∀ rs, (∀ r, r ∈ rs → r ∈ roots mrs) →
        filter (not_in_source_branches (source_branches mrs))
          (mjoin (chain_from depth (mrs_dict mrs) <$> rs)) = rs) as H; [|by apply H].
      induction rs as [|r rs IH]; intros Hrs; [done|].
      assert (r ∈ roots mrs) as Hr by (apply Hrs; by left).
      pose proof (Hroots r Hr) as Hin.
      pose proof Hin as Hshape.
      apply inner_shape in Hshape as (rest & Heq & Hl & Hall).
      csimpl. rewrite filter_app, IH by (intros; apply Hrs; by right).
      rewrite Heq. rewrite Heq in Hl.
      apply roots_member in Hr as [Hrm Hroot].
      rewrite filter_cons_True by done.
      assert (filter (not_in_source_branches (source_branches mrs)) rest = []) as ->;
        [|done].
      apply (chain_tail_not_root mrs) in Hl; [|by constructor].
      clear -Hl. induction Hl as [|y t Hy _ IH]; [done|].
      by rewrite filter_cons_False. }
    apply NoDup_filter. by eapply NoDup_fmap_1.
Qed.

(** X4. With pairwise distinct source branches the builder lists no MR
    twice and lists members of the input only, whatever the links, so that
    its result is never longer than its input. *)
Theorem chain_no_repeats (mrs : list MergeRequest) (depth : nat) :
  NoDup (source_branch <$> mrs) → length mrs ≤ depth →
  ∃ l, get_merge_request_chain depth mrs = Some l
       ∧ NoDup l ∧ (∀ m, m ∈ l → m ∈ mrs) ∧ length l ≤ length mrs.
Proof.
  intros Hnd Hlen.
  destruct (builder_chains mrs depth Hnd Hlen) as (Hres & _ & Hsub & Hno).
  eexists. split; [exact Hres|]. split; [done|]. split; [done|].
  by apply submseteq_length, NoDup_submseteq.
Qed.

(** [chain_no_repeats] on a root, a cycle and two MRs with one target. *)
Lemma chain_no_repeats_witness :
  ∃ l, get_merge_request_chain 5
         [mk_mr "r" "master"; mk_mr "a" "b"; mk_mr "b" "a"; mk_mr "c" "r";
          mk_mr "d" "r"]
       = Some l
       ∧ NoDup l
       ∧ (∀ m, m ∈ l → m ∈ [mk_mr "r" "master"; mk_mr "a" "b"; mk_mr "b" "a";
                            mk_mr "c" "r"; mk_mr "d" "r"])
       ∧ length l ≤ length [mk_mr "r" "master"; mk_mr "a" "b"; mk_mr "b" "a";
                            mk_mr "c" "r"; mk_mr "d" "r"].
Proof.
  apply (chain_no_repeats _ 5); [compute_done|simpl; lia].
Defined.

Lemma inner_head (d : gmap (option string) MergeRequest) (depth : nat)
    (x : MergeRequest) (c : list MergeRequest) :
  get_merge_request_chain_inner depth d x = Some c → ∃ rest, c = x :: rest.
Proof.
  destruct depth as [|n]; [done|]. simpl.
  destruct (d !! Some (source_branch x)) as [y|]; [|intros [= <-]; by eexists].
  destruct (get_merge_request_chain_inner n d y); simpl; intros [= <-]; by eexists.
Qed.

(** Where a chain of the builder holds [p], it holds the MR that the dict
    has for the source branch of [p]. *)
Lemma inner_continues (d : gmap (option string) MergeRequest) (depth : nat) :
  ∀ r c p m,
  get_merge_request_chain_inner depth d r = Some c → p ∈ c →
  d !! Some (source_branch p) = Some m → m ∈ c.
Proof.
  induction depth as [|n IH]; intros r c p m H Hp Hm; [done|].
  simpl in H. destruct (d !! Some (source_branch r)) as [y|] eqn:Hy.
  - destruct (get_merge_request_chain_inner n d y) as [c'|] eqn:Hc';
      simpl in H; [|done].
    injection H as <-. apply elem_of_cons in Hp as [->|Hp].
    + right. rewrite Hy in Hm. injection Hm as <-.
      destruct (inner_head _ _ _ _ Hc') as [rest ->]. by left.
    + right. by eapply IH.
  - injection H as <-. apply list_elem_of_singleton in Hp. subst p.
    by rewrite Hy in Hm.
Qed.

(** X5. The builder drops and repeats nothing when the links are in order:
    if the source branches are pairwise distinct, no two MRs target the
    same member's branch, and the links have no cycle (some rank grows from
    every MR to the MR that targets its source branch), then the result is a
    permutation of the input. *)
Theorem chain_keeps_every_member (mrs : list MergeRequest) (depth : nat)
    (rank : MergeRequest → nat) :
  NoDup (source_branch <$> mrs) →
  (∀ x y, x ∈ mrs → y ∈ mrs → target_branch x = target_branch y →
     x = y ∨ not_in_source_branches (source_branches mrs) x) →
  (∀ x y, x ∈ mrs → y ∈ mrs → target_branch y = Some (source_branch x) →
     rank x < rank y) →
  length mrs ≤ depth →
  ∃ l, get_merge_request_chain depth mrs = Some l ∧ l ≡ₚ mrs.
Proof.
  intros Hnd Hone Hrank Hlen.
  destruct (builder_chains mrs depth Hnd Hlen) as (Hres & Hcs & Hsub & Hno).
  destruct (chain_builder_returns mrs depth Hnd Hlen) as [_ Hroots].
  eexists. split; [exact Hres|].
  apply NoDup_Permutation; [done|by eapply NoDup_fmap_1|].
  intros m. split; [apply Hsub|].
  assert (∀ n m, rank m < n → m ∈ mrs →
    m ∈ mjoin (chain_from depth (mrs_dict mrs) <$> roots mrs)) as Hall;
    [|intros Hm; apply (Hall (S (rank m))); [lia|done]].
  clear m. induction n as [|n IH]; intros m Hn Hm; [lia|].
  destruct (decide (not_in_source_branches (source_branches mrs) m)) as [Hroot|Hnr].
  - assert (m ∈ roots mrs) as Hr by by apply roots_member.
    apply list_elem_of_join. exists (chain_from depth (mrs_dict mrs) m).
    split; [|by apply list_elem_of_fmap_2].
    pose proof (Hroots m Hr) as Hin.
    apply inner_shape in Hin as (rest & -> & _). by left.
  - unfold not_in_source_branches in Hnr.
    destruct (target_branch m) as [s|] eqn:Ht; [|done].
    apply dec_stable in Hnr. apply elem_of_source_branches in Hnr as (p & Hp & <-).
    assert (p ∈ mjoin (chain_from depth (mrs_dict mrs) <$> roots mrs)) as Hpin.
    { apply IH; [|done]. specialize (Hrank p m Hp Hm Ht). lia. }
    apply list_elem_of_join in Hpin as (c & Hpc & Hc).
    apply list_elem_of_join. exists c. split; [|done].
    apply list_elem_of_fmap in Hc as (r & -> & Hr).
    destruct (mrs_dict_lookup_member mrs m Hm) as [m' Hm']. rewrite Ht in Hm'.
    pose proof (mrs_dict_lookup_Some _ _ _ Hm') as [Hm'in Hm't].
    assert (m' = m) as ->.
    { destruct (Hone m' m Hm'in Hm) as [?|Hroot]; [congruence|done|].
      exfalso. exact (targets_member_not_root mrs p m' Hp Hm't Hroot). }
    eapply inner_continues; [by apply Hroots|exact Hpc|exact Hm'].
Qed.

(** [chain_keeps_every_member] on a stack of three and a stack of one. *)
Lemma chain_keeps_every_member_witness :
  ∃ l, get_merge_request_chain 4
         [mk_mr "abc" "ab"; mk_mr "a" "master"; mk_mr "x" "master"; mk_mr "ab" "a"]
       = Some l
       ∧ l ≡ₚ [mk_mr "abc" "ab"; mk_mr "a" "master"; mk_mr "x" "master";
               mk_mr "ab" "a"].
Proof.
  apply (chain_keeps_every_member _ 4 (λ m, String.length (source_branch m))).
  - compute_done.
  - intros x y Hx Hy.
    repeat (apply elem_of_cons in Hx as [->|Hx]); [..|by apply elem_of_nil in Hx];
      repeat (apply elem_of_cons in Hy as [->|Hy]);
      try (by apply elem_of_nil in Hy); compute_done.
  - intros x y Hx Hy.
    repeat (apply elem_of_cons in Hx as [->|Hx]); [..|by apply elem_of_nil in Hx];
      repeat (apply elem_of_cons in Hy as [->|Hy]);
      try (by apply elem_of_nil in Hy); compute_done.
  - simpl. lia.
Defined.

(** ** The constructor, [_set_data] and the local branch *)

(** An attribute after the loop of [_set_data]: the last value that the data
    gives for it, or the one it had. *)
Lemma foldl_set_attr_field {V} (f : MergeRequest → V) (sel : attr → option V)
    (d : json_data) (mr : MergeRequest) :
  (∀ a m, f (set_attr a m) = from_option id (f m) (sel a)) →
  f (foldl (λ m a, set_attr a m) mr d) = from_option id (f mr) (last (omap sel d)).
Proof.
  intros Hset. induction d as [|a d IH] using rev_ind; [done|].
  rewrite foldl_app, omap_app. simpl. rewrite Hset.
  destruct (sel a) as [v|]; simpl.
  - by rewrite last_snoc.
  - by rewrite app_nil_r.
Qed.

Lemma refreshed_source_branch (d : json_data) (mr : MergeRequest) :
  _source_branch (refreshed d mr)
  = default (_source_branch mr) (lookup_source_branch d).
Proof.
  unfold refreshed, lookup_source_branch. simpl.
  rewrite (foldl_set_attr_field _source_branch
             (λ a, if a is a_source_branch v then Some v else None)).
  - by destruct (last _).
  - by intros [].
Qed.

Lemma refreshed_local_branch (d : json_data) (mr : MergeRequest) :
  _local_branch (refreshed d mr)
  = Py.rsplit_dash_head (_source_branch (refreshed d mr)).
Proof. done. Qed.

(** [__init__] step by step. *)
Lemma init_run (remote : string) (s t ti de : option string)
    (json_data : option json) (w : world) :
  __init__ remote s t ti de json_data w =
  match json_data with
  | Some (JArray (_ :: _)) => (Raised TypeError, w)
  | Some (JObject d) =>
      if source_is_set s json_data
      then (Returned (refreshed d (fresh remote s t ti de)), w)
      else (Raised AttributeError, w)
  | _ =>
      if source_is_set s json_data
      then (Returned (refreshed [] (fresh remote s t ti de)), w)
      else (Raised AttributeError, w)
  end.
Proof.
  unfold __init__, _set_data, modify_self, raise, mbind, mret, prog_bind, prog_ret.
  by destruct json_data as [[d|[|? ?]]|].
Qed.

(** X6. Whenever the constructor or [refresh] returns, [_local_branch] is
    [_source_branch] cut at its last ["-"]: a key [local_branch] in the data
    cannot set it otherwise, and the constructor touches nothing of the
    world. *)
Theorem local_branch_follows_source_branch :
  (∀ remote s t ti de json_data w mr w',
     __init__ remote s t ti de json_data w = (Returned mr, w') →
     _local_branch mr = Py.rsplit_dash_head (_source_branch mr) ∧ w' = w)
  ∧ (∀ mr w mr' w',
     refresh (mr, w) = (Returned tt, (mr', w')) →
     _local_branch mr' = Py.rsplit_dash_head (_source_branch mr')).
Proof.
  split.
  - intros remote s t ti de json_data w mr w'. rewrite init_run.
    destruct json_data as [[d|[|? ?]]|]; try done;
      destruct (source_is_set _ _); try done; by intros [= <- <-].
  - intros mr w mr' w'. rewrite refresh_run.
    destruct (pending w) as [|[r|e] rest]; try done. simpl.
    destruct (is_error_status (status_code r)); [done|].
    destruct (body r) as [[d|[|? ?]]|]; try done; by intros [= <- <-].
Qed.

(** [local_branch_follows_source_branch] on an object whose data tries to
    set [local_branch]. *)
Lemma local_branch_follows_source_branch_witness :
  ∃ mr, __init__ "origin" None None None None
          (Some (JObject [a_source_branch "feat-x-2"; a_local_branch "other"]))
          (example_world [])
        = (Returned mr, example_world [])
        ∧ _local_branch mr = "feat-x".
Proof.
  eexists. split; [reflexivity|].
  exact (proj1 (proj1 local_branch_follows_source_branch
           "origin" None None None None
           (Some (JObject [a_source_branch "feat-x-2"; a_local_branch "other"]))
           (example_world []) _ _ eq_refl)).
Defined.

(** [update] with a new source branch does not bring [_local_branch] along. *)
Example update_leaves_local_branch :
  ∃ mr' w', update (Some "hotfix-9") None None None
              (with_iid (Some "7") (mk_mr "feat-1" "master"),
               example_world
                 [Resp {| status_code := 200;
                          body := Some (JObject [a_iid (Some "7"); a_web_url None]) |}])
            = (Returned tt, (mr', w'))
            ∧ _source_branch mr' = "hotfix-9" ∧ _local_branch mr' = "feat".
Proof. eexists _, _. split; [vm_compute; reflexivity|]. split; reflexivity. Qed.

Lemma dash_free_before_last_dash (s : string) :
  dash_free s = true → Py.before_last_dash s = None.
Proof.
  induction s as [|c s IH]; [done|]. simpl. intros [Hc Hs]%andb_true_iff.
  rewrite (IH Hs). by destruct (Ascii.eqb c "-").
Qed.

Lemma rsplit_dash_head_join (stem suffix : string) :
  dash_free suffix = true →
  Py.rsplit_dash_head (stem +:+ "-" +:+ suffix) = stem.
Proof.
  intros Hs. unfold Py.rsplit_dash_head.
  assert (Py.before_last_dash (stem +:+ "-" +:+ suffix) = Some stem) as ->; [|done].
  induction stem as [|c stem IH]; simpl.
  - change ("" +:+ suffix) with suffix.
    by rewrite (dash_free_before_last_dash suffix Hs).
  - by rewrite IH.
Qed.

(** X7. The local branch is recovered from a source branch: an MR made for
    the source branch [stem-suffix], where the suffix has no ["-"], has the
    local branch [stem], also when [stem] itself has dashes. *)
Theorem local_branch_round_trip (remote stem suffix : string)
    (t ti de : option string) (w : world) :
  dash_free suffix = true →
  ∃ mr, __init__ remote (Some (stem +:+ "-" +:+ suffix)) t ti de None w
        = (Returned mr, w)
        ∧ _source_branch mr = stem +:+ "-" +:+ suffix
        ∧ _local_branch mr = stem.
Proof.
  intros Hs. rewrite init_run. simpl. eexists. split; [done|]. split; [done|].
  rewrite refreshed_local_branch, refreshed_source_branch. simpl.
  by apply rsplit_dash_head_join.
Qed.

(** [local_branch_round_trip] on a stem with dashes. *)
Lemma local_branch_round_trip_witness :
  ∃ mr, __init__ "origin" (Some ("my-feature" +:+ "-" +:+ "12")) (Some "master")
          None None None (example_world [])
        = (Returned mr, example_world [])
        ∧ _source_branch mr = "my-feature" +:+ "-" +:+ "12"
        ∧ _local_branch mr = "my-feature".
Proof.
  exact (local_branch_round_trip "origin" "my-feature" "12" (Some "master")
           None None (example_world []) eq_refl).
Defined.

(** X8. What the constructor makes of an object of the listing.  It raises
    [AttributeError] exactly when neither its argument nor the data give a
    source branch.  Otherwise every attribute that the data has a key for is
    the data's (the last value, if the key is there twice), the others are
    the arguments', [iid] is [None] and [needs_save] is unset unless the
    data say otherwise. *)
Theorem init_takes_data_over_arguments (remote : string)
    (s t ti de : option string) (d : json_data) (w : world) :
  (s = None → lookup_source_branch d = None →
     __init__ remote s t ti de (Some (JObject d)) w = (Raised AttributeError, w))
  ∧ (∀ src, from_option Some s (lookup_source_branch d) = Some src →
     ∃ mr, __init__ remote s t ti de (Some (JObject d)) w = (Returned mr, w)
       ∧ _source_branch mr = src
       ∧ _target_branch mr = default t (lookup_target_branch d)
       ∧ _title mr = default ti (lookup_title d)
       ∧ _description mr = default de (lookup_description d)
       ∧ _iid mr = default None (lookup_iid d)
       ∧ _needs_save mr = default false (lookup_needs_save d)
       ∧ _remote mr = default remote (lookup_remote d)).
Proof.
  rewrite init_run. split.
  - intros -> Hd. simpl. by rewrite Hd.
  - intros src Hsrc.
    assert (source_is_set s (Some (JObject d)) = true) as ->.
    { destruct s; [done|]. simpl in *.
      destruct (lookup_source_branch d); [|done].
      by apply bool_decide_eq_true. }
    eexists. split; [done|].
    split; [|split; [|split; [|split; [|split; [|split]]]]].
    + rewrite refreshed_source_branch. simpl.
      destruct (lookup_source_branch d); destruct s; by simplify_eq/=.
    + unfold refreshed, lookup_target_branch. simpl.
      rewrite (foldl_set_attr_field _target_branch
                 (λ a, if a is a_target_branch v then Some v else None));
        [by destruct (last _)|by intros []].
    + unfold refreshed, lookup_title. simpl.
      rewrite (foldl_set_attr_field _title
                 (λ a, if a is a_title v then Some v else None));
        [by destruct (last _)|by intros []].
    + unfold refreshed, lookup_description. simpl.
      rewrite (foldl_set_attr_field _description
                 (λ a, if a is a_description v then Some v else None));
        [by destruct (last _)|by intros []].
    + unfold refreshed, lookup_iid. simpl.
      rewrite (foldl_set_attr_field _iid
                 (λ a, if a is a_iid v then Some v else None));
        [by destruct (last _)|by intros []].
    + unfold refreshed, lookup_needs_save. simpl.
      rewrite (foldl_set_attr_field _needs_save
                 (λ a, if a is a_needs_save v then Some v else None));
        [by destruct (last _)|by intros []].
    + unfold refreshed, lookup_remote. simpl.
      rewrite (foldl_set_attr_field _remote
                 (λ a, if a is a_remote v then Some v else None));
        [by destruct (last _)|by intros []].
Qed.

(** [init_takes_data_over_arguments] on data that override the title. *)
Lemma init_takes_data_over_arguments_witness :
  ∃ mr, __init__ "origin" (Some "feat-1") (Some "master") (Some "Old") None
          (Some (JObject [a_title (Some "New"); a_iid (Some "7")])) (example_world [])
        = (Returned mr, example_world [])
        ∧ _source_branch mr = "feat-1"
        ∧ _target_branch mr
          = default (Some "master")
              (lookup_target_branch [a_title (Some "New"); a_iid (Some "7")])
        ∧ _title mr
          = default (Some "Old") (lookup_title [a_title (Some "New"); a_iid (Some "7")])
        ∧ _description mr
          = default None (lookup_description [a_title (Some "New"); a_iid (Some "7")])
        ∧ _iid mr = default None (lookup_iid [a_title (Some "New"); a_iid (Some "7")])
        ∧ _needs_save mr
          = default false (lookup_needs_save [a_title (Some "New"); a_iid (Some "7")])
        ∧ _remote mr
          = default "origin" (lookup_remote [a_title (Some "New"); a_iid (Some "7")]).
Proof.
  exact (proj2 (init_takes_data_over_arguments "origin" (Some "feat-1")
                  (Some "master") (Some "Old") None
                  [a_title (Some "New"); a_iid (Some "7")] (example_world []))
           "feat-1" eq_refl).
Defined.

(** ** The setters, [delete] and the methods that only read *)

(** X9. Each setter stores what it is given and is idempotent: after
    [set_title] or [set_target_branch] the attribute is the value, after
    [set_desc] (on an MR with a description) the stored description is the
    value up to surrounding whitespace; a second call with the same value
    changes nothing; and no setter ever clears [needs_save]. *)
Theorem setters_idempotent (mr : MergeRequest) (w : world) :
  (∀ title, ∃ mr1,
     set_title title (mr, w) = (Returned tt, (mr1, w))
     ∧ _title mr1 = title
     ∧ set_title title (mr1, w) = (Returned tt, (mr1, w))
     ∧ (_needs_save mr = true → _needs_save mr1 = true))
  ∧ (∀ target, ∃ mr1,
     set_target_branch target (mr, w) = (Returned tt, (mr1, w))
     ∧ _target_branch mr1 = target
     ∧ set_target_branch target (mr1, w) = (Returned tt, (mr1, w))
     ∧ (_needs_save mr = true → _needs_save mr1 = true))
  ∧ (∀ mine desc, _description mr = Some mine → ∃ mr1 stored,
     set_desc (Some desc) (mr, w) = (Returned tt, (mr1, w))
     ∧ _description mr1 = Some stored ∧ Py.strip stored = Py.strip desc
     ∧ set_desc (Some desc) (mr1, w) = (Returned tt, (mr1, w))
     ∧ (_needs_save mr = true → _needs_save mr1 = true)).
Proof.
  split; [|split].
  - intros title. run. destruct (decide (_title mr ≠ title)) as [Hne|Heq].
    + eexists. split; [done|]. split; [done|]. simpl.
      by destruct (decide (title ≠ title)).
    + apply dec_stable in Heq. exists mr. split; [done|]. split; [done|].
      split; [|done]. destruct (decide (_title mr ≠ title)); [done|done].
  - intros target. run.
    destruct (decide (_target_branch mr ≠ target)) as [Hne|Heq].
    + eexists. split; [done|]. split; [done|]. simpl.
      by destruct (decide (target ≠ target)).
    + apply dec_stable in Heq. exists mr. split; [done|]. split; [done|].
      split; [|done]. destruct (decide (_target_branch mr ≠ target)); [done|done].
  - intros mine desc Hd. run. rewrite Hd.
    destruct (decide (Py.strip mine ≠ Py.strip desc)) as [Hne|Heq].
    + eexists _, desc. split; [done|]. split; [done|]. split; [done|]. simpl.
      by destruct (decide (Py.strip desc ≠ Py.strip desc)).
    + apply dec_stable in Heq. exists mr, mine. rewrite Hd.
      split; [done|]. split; [done|]. split; [done|]. split; [|done].
      destruct (decide (Py.strip mine ≠ Py.strip desc)); [done|done].
Qed.

(** [setters_idempotent] on a description that is replaced. *)
Lemma setters_idempotent_witness :
  ∃ mr1 stored,
    set_desc (Some "new body ")
      (with_description (Some "old") (mk_mr "feat-1" "master"), example_world [])
    = (Returned tt, (mr1, example_world []))
    ∧ _description mr1 = Some stored ∧ Py.strip stored = Py.strip "new body "
    ∧ set_desc (Some "new body ") (mr1, example_world [])
      = (Returned tt, (mr1, example_world []))
    ∧ (_needs_save (with_description (Some "old") (mk_mr "feat-1" "master")) = true →
       _needs_save mr1 = true).
Proof.
  exact (proj2 (proj2 (setters_idempotent
           (with_description (Some "old") (mk_mr "feat-1" "master"))
           (example_world []))) "old" "new body " eq_refl).
Defined.

(** [delete] step by step. *)
Lemma delete_run (flag : bool) (mr : MergeRequest) (w : world) :
  delete flag (mr, w) =
  match _iid mr with
  | None => (Raised (ValueError "Must set iid before deleting an MR!"), (mr, w))
  | Some _ =>
      let w1 := answered (Request DELETE (iid_url w mr) None) w in
      match pending w with
      | [] => (Blocked, (mr, w1))
      | Fails e :: _ => (Raised e, (mr, w1))
      | Resp r :: _ =>
          if is_error_status (status_code r)
          then (Raised (HTTPError (status_code r)), (mr, w1))
          else (Returned tt,
                (mr, if flag
                     then emit (Push (_remote mr) (":" +:+ _source_branch mr)) w1
                     else w1))
      end
  end.
Proof.
  destruct w as [u rsb [|[r|e] rest] lg]; run; destruct (_iid mr); try done;
    simpl; destruct (is_error_status (status_code r)); try done; by destruct flag.
Qed.

(** X10. [delete] pushes the deletion of the source branch only after the
    remote has accepted the DELETE of the MR, and only when it was asked to:
    however it ends, what it did holds exactly one push if it returned and
    [delete_source_branch] was set, and none otherwise; it sends at most the
    one DELETE; and without an [iid] it raises and does nothing at all. *)
Theorem delete_pushes_only_after_success (flag : bool) (mr mr' : MergeRequest)
    (w w' : world) (o : outcome unit) :
  delete flag (mr, w) = (o, (mr', w')) →
  ∃ es, log w' = log w ++ es
    ∧ filter (λ e, is_push e = true) es
      = match o with
        | Returned _ =>
            if flag then [Push (_remote mr) (":" +:+ _source_branch mr)] else []
        | _ => []
        end
    ∧ filter (λ e, is_push e = false) es
      = (if _iid mr is Some _ then [Request DELETE (iid_url w mr) None] else [])
    ∧ (_iid mr = None → ∃ msg, o = Raised (ValueError msg)).
Proof.
  rewrite delete_run. destruct (_iid mr) as [iid|].
  - destruct w as [u rsb [|[r|e] rest] lg]; simpl.
    + intros [= <- <- <-]. by eexists [_].
    + destruct (is_error_status (status_code r)).
      * intros [= <- <- <-]. by eexists [_].
      * destruct flag; intros [= <- <- <-]; simpl.
        -- eexists [_; _]. split; [by rewrite <- app_assoc|]. by repeat split.
        -- by eexists [_].
    + intros [= <- <- <-]. by eexists [_].
  - intros [= <- <- <-]. exists []. rewrite app_nil_r. repeat split; by eauto.
Qed.

(** [delete_pushes_only_after_success] on a DELETE that the remote refuses:
    the branch is not pushed away, though that was asked for. *)
Lemma delete_pushes_only_after_success_witness :
  ∃ w' es,
    delete true (with_iid (Some "7") (mk_mr "feat-1" "master"),
                 example_world [Resp {| status_code := 403; body := None |}])
    = (Raised (HTTPError 403), (with_iid (Some "7") (mk_mr "feat-1" "master"), w'))
    ∧ log w' = [] ++ es
    ∧ filter (λ e, is_push e = true) es = []
    ∧ filter (λ e, is_push e = false) es
      = [Request DELETE "https://gitlab.example/api/v4/projects/1/merge_requests/7"
           None].
Proof.
  destruct (delete_pushes_only_after_success true
              (with_iid (Some "7") (mk_mr "feat-1" "master")) _
              (example_world [Resp {| status_code := 403; body := None |}]) _
              (Raised (HTTPError 403)) eq_refl) as (es & Hlog & Hpush & Hreq & _).
  eexists _, es. split; [reflexivity|]. split; [exact Hlog|].
  split; [exact Hpush|exact Hreq].
Defined.

Lemma merge_loop_keeps_object (url : string) (n : nat) : ∀ mr w,
  fst (snd (iterate n (merge_attempt url) tt (mr, w))) = mr.
Proof.
  induction n as [|n IH]; intros mr w; [done|].
  rewrite iterate_S, merge_attempt_run.
  destruct (pending w) as [|[r|e] rest]; try done. simpl.
  destruct (decide (status_code r = codes_ok)); [done|]. apply IH.
Qed.

(** X11. [merge], [rebase], [get_commits] and [delete] never change the
    object, whatever the remote replies and however they end. *)
Theorem remote_calls_keep_object (mr : MergeRequest) (w : world) :
  fst (snd (merge (mr, w))) = mr
  ∧ fst (snd (rebase (mr, w))) = mr
  ∧ fst (snd (get_commits (mr, w))) = mr
  ∧ ∀ flag, fst (snd (delete flag (mr, w))) = mr.
Proof.
  split; [|split; [|split]].
  - unfold merge, mbind, prog_bind, get_self, globals. simpl.
    destruct (_iid mr); [|done]. apply merge_loop_keeps_object.
  - destruct w as [u rsb [|[r|e] rest] lg]; run; try done.
    by destruct (is_error_status (status_code r)).
  - destruct w as [u rsb [|[r|e] rest] lg]; run; try done.
    destruct (is_error_status (status_code r)); [done|]. by destruct (body r).
  - intros flag. rewrite delete_run. destruct (_iid mr); [|done].
    destruct (pending w) as [|[r|e] rest]; try done. simpl.
    by destruct (is_error_status (status_code r)).
Qed.

(** X12. [refresh], on a response that is no error and holds an object,
    sends one GET and takes from the body every attribute the body has a
    key for, also one that was edited locally and not saved; what the body
    has no key for stays, [needs_save] among it. *)
Theorem refresh_takes_body_over_object (mr : MergeRequest) (w : world)
    (r : response) (rest : list reply) (d : json_data) :
  pending w = Resp r :: rest →
  is_error_status (status_code r) = false →
  body r = Some (JObject d) →
  ∃ mr', refresh (mr, w)
         = (Returned tt, (mr', answered (Request GET (iid_url w mr) None) w))
    ∧ _source_branch mr' = default (_source_branch mr) (lookup_source_branch d)
    ∧ _target_branch mr' = default (_target_branch mr) (lookup_target_branch d)
    ∧ _title mr' = default (_title mr) (lookup_title d)
    ∧ _description mr' = default (_description mr) (lookup_description d)
    ∧ _iid mr' = default (_iid mr) (lookup_iid d)
    ∧ _sha mr' = from_option Some (_sha mr) (lookup_sha d)
    ∧ _needs_save mr' = default (_needs_save mr) (lookup_needs_save d).
Proof.
  intros Hp Hst Hb. exists (refreshed d mr). split.
  { rewrite refresh_run, Hp. cbv beta iota zeta. by rewrite Hst, Hb. }
  split; [apply refreshed_source_branch|].
  split; [|split; [|split; [|split; [|split]]]].
  - unfold refreshed, lookup_target_branch. simpl.
    rewrite (foldl_set_attr_field _target_branch
               (λ a, if a is a_target_branch v then Some v else None));
      [by destruct (last _)|by intros []].
  - unfold refreshed, lookup_title. simpl.
    rewrite (foldl_set_attr_field _title
               (λ a, if a is a_title v then Some v else None));
      [by destruct (last _)|by intros []].
  - unfold refreshed, lookup_description. simpl.
    rewrite (foldl_set_attr_field _description
               (λ a, if a is a_description v then Some v else None));
      [by destruct (last _)|by intros []].
  - unfold refreshed, lookup_iid. simpl.
    rewrite (foldl_set_attr_field _iid
               (λ a, if a is a_iid v then Some v else None));
      [by destruct (last _)|by intros []].
  - apply refreshed_sha.
  - unfold refreshed, lookup_needs_save. simpl.
    rewrite (foldl_set_attr_field _needs_save
               (λ a, if a is a_needs_save v then Some v else None));
      [by destruct (last _)|by intros []].
Qed.

(** [refresh_takes_body_over_object] on a title that was set and not saved. *)
Lemma refresh_takes_body_over_object_witness :
  ∃ mr', _title mr' = Some "Remote title" ∧ _needs_save mr' = true
    ∧ refresh (with_needs_save true (with_title (Some "Local edit")
                 (with_iid (Some "7") (mk_mr "feat-1" "master"))),
               example_world
                 [Resp {| status_code := 200;
                          body := Some (JObject [a_title (Some "Remote title")]) |}])
      = (Returned tt,
         (mr', answered
                 (Request GET
                    "https://gitlab.example/api/v4/projects/1/merge_requests/7" None)
                 (example_world
                    [Resp {| status_code := 200;
                             body := Some (JObject [a_title (Some "Remote title")]) |}]))).
Proof.
  destruct (refresh_takes_body_over_object
              (with_needs_save true (with_title (Some "Local edit")
                 (with_iid (Some "7") (mk_mr "feat-1" "master"))))
              (example_world
                 [Resp {| status_code := 200;
                          body := Some (JObject [a_title (Some "Remote title")]) |}])
              _ [] [a_title (Some "Remote title")] eq_refl eq_refl eq_refl)
    as (mr' & Hrun & _ & _ & Ht & _ & _ & _ & Hns).
  exists mr'. split; [exact Ht|]. split; [exact Hns|]. exact Hrun.
Defined.

(** X13. The stability poll and a body without usable [sha].  If the first
    response holds an object without the key [sha] and the object never had
    the attribute, [wait_until_stable] raises [AttributeError] after its one
    GET; if the key is there with [null], it sleeps and polls again like for
    any other sha. *)
Theorem wait_until_stable_without_sha (commit : Commit.t) (mr : MergeRequest)
    (w : world) (r : response) (rest : list reply) (d : json_data) :
  pending w = Resp r :: rest →
  is_error_status (status_code r) = false →
  body r = Some (JObject d) →
  let get := Request GET (iid_url w mr) None in
  (_sha mr = None → lookup_sha d = None →
     wait_until_stable commit (mr, w)
     = (Raised AttributeError, (refreshed d mr, answered get w)))
  ∧ (lookup_sha d = Some None → rest = [] →
     wait_until_stable commit (mr, w)
     = (Blocked,
        (refreshed d mr,
         emit_all [get; Sleep 500;
                   Request GET (iid_url w (refreshed d mr)) None]
           (with_pending [] w)))).
Proof.
  intros Hp Hst Hb get.
  assert (refresh (mr, w) = (Returned tt, (refreshed d mr, answered get w))) as Hr.
  { rewrite refresh_run, Hp. cbv beta iota zeta. by rewrite Hst, Hb. }
  unfold wait_until_stable, while_true.
  change (pending (net (mr, w))) with (pending w). rewrite Hp. split.
  - intros Hsha Hd. rewrite iterate_S, poll_once_run, Hr.
    by rewrite refreshed_sha, Hd, Hsha.
  - intros Hd ->. simpl length. rewrite iterate_S, poll_once_run, Hr.
    rewrite refreshed_sha, Hd. simpl from_option. cbv beta iota zeta.
    rewrite decide_False by done.
    set (w2 := emit (Sleep 500) (answered get w)).
    assert (pending w2 = []) as Hw2 by (simpl; by rewrite Hp).
    rewrite iterate_S, poll_once_run, refresh_run, Hw2. cbv beta iota zeta.
    do 2 f_equal. apply world_eq; simpl; try done.
    + by rewrite Hp.
    + by rewrite <- !app_assoc.
Qed.

(** [wait_until_stable_without_sha] on an object that never had a sha. *)
Lemma wait_until_stable_without_sha_witness :
  wait_until_stable
    {| Commit.commit := {| Commit.message := "Fix"; Commit.hexsha := "c0ffee" |};
       Commit.source_branch := "feat-1"; Commit.target_branch := "master" |}
    (with_iid (Some "7") (mk_mr "feat-1" "master"),
     example_world [Resp {| status_code := 200; body := Some (JObject []) |}])
  = (Raised AttributeError,
     (refreshed [] (with_iid (Some "7") (mk_mr "feat-1" "master")),
      answered
        (Request GET
           (iid_url (example_world [Resp {| status_code := 200; body := Some (JObject []) |}])
              (with_iid (Some "7") (mk_mr "feat-1" "master"))) None)
        (example_world [Resp {| status_code := 200; body := Some (JObject []) |}]))).
Proof.
  exact (proj1 (wait_until_stable_without_sha
           {| Commit.commit := {| Commit.message := "Fix"; Commit.hexsha := "c0ffee" |};
              Commit.source_branch := "feat-1"; Commit.target_branch := "master" |}
           (with_iid (Some "7") (mk_mr "feat-1" "master"))
           (example_world [Resp {| status_code := 200; body := Some (JObject []) |}])
           _ [] [] eq_refl eq_refl eq_refl) eq_refl eq_refl).
Defined.

(** ** The callers of the listing *)

(** The listing returns the pages before the first empty one. *)
Lemma listing_returns (w : world) (pages : list response) (last : response)
    (rest : list reply) :
  Forall (λ r, nonempty_page r = true) pages →
  pending w = (Resp <$> pages) ++ Resp last :: rest →
  page_of [] last →
  _get_open_merge_requests w
  = (Returned pages,
     with_pending rest (emit_all (page_requests w 1 (S (length pages))) w)).
Proof.
  intros Hall Hp [Hst Hb].
  unfold _get_open_merge_requests, while_true.
  change (pending (net w)) with (pending w).
  rewrite (list_loop pages _ 1 [] w (Resp last :: rest) Hall Hp)
    by (rewrite Hp, length_app, length_fmap; simpl; lia).
  replace (S (length (pending w)) - length pages) with (S (S (length rest)))
    by (rewrite Hp, length_app, length_fmap; simpl; lia).
  rewrite iterate_S, fetch_page_run. simpl. rewrite Hst, Hb. simpl.
  f_equal. apply world_eq; try done. cbn [log emit_all emit with_pending answered].
  unfold page_requests. rewrite seq_S, fmap_app. cbn [fmap list_fmap].
  by rewrite <- !app_assoc.
Qed.

Lemma page_of_nonempty (l : list json_data) (r : response) :
  page_of l r → l ≠ [] → nonempty_page r = true.
Proof.
  intros [Hst Hb] Hl. unfold nonempty_page. rewrite Hst, Hb. by destruct l.
Qed.

Lemma init_hydrates (remote : string) (d : json_data) (w : world) :
  is_Some (lookup_source_branch d) →
  __init__ remote None None None None (Some (JObject d)) w
  = (Returned (hydrated remote d), w).
Proof.
  intros Hd. rewrite init_run. simpl. by rewrite bool_decide_eq_true_2.
Qed.

Lemma hydrated_source_branch (remote : string) (d : json_data) (sb : string) :
  lookup_source_branch d = Some sb → _source_branch (hydrated remote d) = sb.
Proof. intros H. unfold hydrated. by rewrite refreshed_source_branch, H. Qed.

Lemma collect_from_items_run (remote branch : string) (items : list json_data) :
  ∀ mrs w,
  Forall (λ d, is_Some (lookup_source_branch d)) items →
  collect_from_items remote branch items mrs w
  = (Returned (mrs ++ (hydrated remote
                         <$> filter (λ d, item_starts_with branch d = true) items)), w).
Proof.
  induction items as [|d items IH]; intros mrs w Hall.
  - simpl. by rewrite app_nil_r.
  - apply Forall_cons in Hall as [[sb Hd] Hall].
    cbn [collect_from_items]. unfold getitem_source_branch, mbind, prog_bind.
    rewrite Hd. cbn [mret prog_ret].
    destruct (startswith sb branch) eqn:Hsb.
    + rewrite init_hydrates by by eexists. rewrite IH by done.
      rewrite filter_cons_True by (unfold item_starts_with; by rewrite Hd).
      by rewrite <- app_assoc.
    + rewrite IH by done.
      rewrite filter_cons_False; [done|].
      unfold item_starts_with. rewrite Hd, Hsb. done.
Qed.

Lemma collect_from_pages_run (remote branch : string)
    (bodies : list (list json_data)) (pages : list response) :
  Forall2 page_of bodies pages →
  ∀ mrs w,
  Forall (λ d, is_Some (lookup_source_branch d)) (mjoin bodies) →
  collect_from_pages remote branch pages mrs w
  = (Returned (mrs ++ (hydrated remote
                         <$> filter (λ d, item_starts_with branch d = true)
                               (mjoin bodies))), w).
Proof.
  induction 1 as [|l r bodies pages [Hst Hb] _ IH]; intros mrs w Hall.
  - simpl. by rewrite app_nil_r.
  - simpl in Hall. apply Forall_app in Hall as [Hl Hall].
    cbn [collect_from_pages]. unfold json_of, page_items, mbind, prog_bind.
    rewrite Hb. cbn [mret prog_ret].
    rewrite collect_from_items_run by done. rewrite IH by done.
    simpl. by rewrite filter_app, fmap_app, app_assoc.
Qed.

(** X14. [get_all_merge_requests] over the pages of the listing.  When the
    remote serves pages of objects that all have a source branch, and then
    an empty page, the result holds one MR per listed object whose source
    branch starts with [branch], in the order of the listing across the
    pages, and nothing else; every MR of the result has such a source
    branch; and the requests are those of the listing alone. *)
Theorem get_all_merge_requests_by_prefix (remote branch : string) (w : world)
    (bodies : list (list json_data)) (pages : list response) (last : response)
    (rest : list reply) :
  Forall2 page_of bodies pages →
  Forall (λ l, l ≠ []) bodies →
  Forall (λ d, is_Some (lookup_source_branch d)) (mjoin bodies) →
  pending w = (Resp <$> pages) ++ Resp last :: rest →
  page_of [] last →
  let mrs := hydrated remote
               <$> filter (λ d, item_starts_with branch d = true) (mjoin bodies) in
  get_all_merge_requests remote branch w
  = (Returned mrs,
     with_pending rest (emit_all (page_requests w 1 (S (length pages))) w))
  ∧ Forall (λ mr, startswith (source_branch mr) branch = true) mrs.
Proof.
  intros Hpages Hne Hkeys Hp Hlast mrs. split.
  - unfold get_all_merge_requests, mbind, prog_bind.
    rewrite (listing_returns w pages last rest); [|clear -Hpages Hne|done|done].
    + by rewrite (collect_from_pages_run remote branch bodies pages Hpages).
    + induction Hpages as [|l r bodies pages Hlr _ IH]; [done|].
      apply Forall_cons in Hne as [Hl Hne]. constructor; [|by apply IH].
      by eapply page_of_nonempty.
  - unfold mrs. apply Forall_fmap, Forall_forall. intros d Hd.
    apply list_elem_of_filter in Hd as [Hd _]. unfold item_starts_with in Hd.
    destruct (lookup_source_branch d) as [sb|] eqn:Hsb; [|done].
    unfold compose, source_branch.
    by rewrite (hydrated_source_branch remote d sb Hsb).
Qed.

(** [get_all_merge_requests_by_prefix] on two pages; the branch [feat] also
    catches the stack [feature]. *)
Lemma get_all_merge_requests_by_prefix_witness :
  ∃ w',
    get_all_merge_requests "origin" "feat"
      (example_world
         [Resp {| status_code := 200;
                  body := Some (JArray [[a_source_branch "feat-1"; a_iid (Some "1")];
                                        [a_source_branch "other-1"; a_iid (Some "2")]]) |};
          Resp {| status_code := 200;
                  body := Some (JArray [[a_source_branch "feature-1";
                                         a_iid (Some "3")]]) |};
          Resp {| status_code := 200; body := Some (JArray []) |}])
    = (Returned [hydrated "origin" [a_source_branch "feat-1"; a_iid (Some "1")];
                 hydrated "origin" [a_source_branch "feature-1"; a_iid (Some "3")]],
       w').
Proof.
  pose (ok := λ l, {| status_code := 200; body := Some (JArray l) |}).
  pose (page1 := [[a_source_branch "feat-1"; a_iid (Some "1")];
                  [a_source_branch "other-1"; a_iid (Some "2")]]).
  pose (page2 := [[a_source_branch "feature-1"; a_iid (Some "3")]]).
  eexists.
  exact (proj1 (get_all_merge_requests_by_prefix "origin" "feat"
           (example_world [Resp (ok page1); Resp (ok page2); Resp (ok [])])
           [page1; page2] [ok page1; ok page2] (ok []) []
           ltac:(by repeat constructor) ltac:(by repeat constructor)
           ltac:(repeat constructor; by eexists) eq_refl ltac:(by split))).
Defined.

Lemma find_in_items_run (remote branch : string) (items : list json_data) :
  ∀ w,
  Forall (λ d, is_Some (lookup_source_branch d)) items →
  find_in_items remote branch items w
  = (Returned (hydrated remote
                 <$> head (filter (λ d, item_is branch d = true) items)), w).
Proof.
  induction items as [|d items IH]; intros w Hall; [done|].
  apply Forall_cons in Hall as [[sb Hd] Hall].
  cbn [find_in_items]. unfold getitem_source_branch, mbind, prog_bind.
  rewrite Hd. cbn [mret prog_ret].
  destruct (decide (sb = branch)) as [->|Hne].
  - rewrite init_hydrates by by eexists.
    rewrite filter_cons_True; [done|].
    unfold item_is. by rewrite Hd, bool_decide_eq_true_2.
  - rewrite IH by done. rewrite filter_cons_False; [done|].
    unfold item_is. rewrite Hd, bool_decide_eq_false_2; [done|congruence].
Qed.

Lemma find_in_pages_run (remote branch : string)
    (bodies : list (list json_data)) (pages : list response) :
  Forall2 page_of bodies pages →
  ∀ w,
  Forall (λ d, is_Some (lookup_source_branch d)) (mjoin bodies) →
  find_in_pages remote branch pages w
  = (Returned (hydrated remote
                 <$> head (filter (λ d, item_is branch d = true) (mjoin bodies))), w).
Proof.
  induction 1 as [|l r bodies pages [Hst Hb] _ IH]; intros w Hall; [done|].
  simpl in Hall. apply Forall_app in Hall as [Hl Hall].
  cbn [find_in_pages]. unfold json_of, page_items, mbind, prog_bind.
  rewrite Hb. cbn [mret prog_ret].
  rewrite find_in_items_run by done. simpl. rewrite filter_app.
  destruct (filter (λ d, item_is branch d = true) l) as [|d l']; simpl; [|done].
  by rewrite IH.
Qed.

(** X15. [get_merge_request] over the pages of the listing.  Under the
    same conditions it returns the MR of the first listed object whose
    source branch is [branch], or [None] when there is none; the MR it
    returns has that source branch; and it has asked for every page of the
    listing first, wherever the object stands. *)
Theorem get_merge_request_first_match (remote branch : string) (w : world)
    (bodies : list (list json_data)) (pages : list response) (last : response)
    (rest : list reply) :
  Forall2 page_of bodies pages →
  Forall (λ l, l ≠ []) bodies →
  Forall (λ d, is_Some (lookup_source_branch d)) (mjoin bodies) →
  pending w = (Resp <$> pages) ++ Resp last :: rest →
  page_of [] last →
  let found := hydrated remote
                 <$> head (filter (λ d, item_is branch d = true) (mjoin bodies)) in
  get_merge_request remote branch w
  = (Returned found,
     with_pending rest (emit_all (page_requests w 1 (S (length pages))) w))
  ∧ (∀ mr, found = Some mr → source_branch mr = branch)
  ∧ (found = None ↔
     ∀ d, d ∈ mjoin bodies → lookup_source_branch d ≠ Some branch).
Proof.
  intros Hpages Hne Hkeys Hp Hlast found. split; [|split].
  - unfold get_merge_request, mbind, prog_bind.
    rewrite (listing_returns w pages last rest); [|clear -Hpages Hne|done|done].
    + by rewrite (find_in_pages_run remote branch bodies pages Hpages).
    + induction Hpages as [|l r bodies pages Hlr _ IH]; [done|].
      apply Forall_cons in Hne as [Hl Hne]. constructor; [|by apply IH].
      by eapply page_of_nonempty.
  - intros mr. unfold found.
    destruct (filter _ _) as [|d l] eqn:Hf; [done|]. simpl. intros [= <-].
    assert (d ∈ filter (λ d, item_is branch d = true) (mjoin bodies)) as Hd
      by (rewrite Hf; by left).
    apply list_elem_of_filter in Hd as [Hd _]. unfold item_is in Hd.
    apply bool_decide_eq_true in Hd. by apply hydrated_source_branch.
  - unfold found. split.
    + intros Hnone d Hd Hsb.
      destruct (filter _ _) as [|d' l] eqn:Hf; [|done].
      assert (d ∈ filter (λ d, item_is branch d = true) (mjoin bodies)) as Hin.
      { apply list_elem_of_filter. split; [|done].
        unfold item_is. by apply bool_decide_eq_true. }
      rewrite Hf in Hin. by apply elem_of_nil in Hin.
    + intros Hall. destruct (filter _ _) as [|d l] eqn:Hf; [done|]. exfalso.
      assert (d ∈ filter (λ d, item_is branch d = true) (mjoin bodies)) as Hd
        by (rewrite Hf; by left).
      apply list_elem_of_filter in Hd as [Hd Hin]. unfold item_is in Hd.
      apply bool_decide_eq_true in Hd. by apply (Hall d).
Qed.

(** [get_merge_request_first_match] on an object of the second page. *)
Lemma get_merge_request_first_match_witness :
  ∃ w',
    get_merge_request "origin" "feat-2"
      (example_world
         [Resp {| status_code := 200;
                  body := Some (JArray [[a_source_branch "feat-1";
                                         a_iid (Some "1")]]) |};
          Resp {| status_code := 200;
                  body := Some (JArray [[a_source_branch "feat-2";
                                         a_iid (Some "2")]]) |};
          Resp {| status_code := 200; body := Some (JArray []) |}])
    = (Returned (Some (hydrated "origin" [a_source_branch "feat-2"; a_iid (Some "2")])),
       w')
    ∧ log w' = page_requests (example_world []) 1 3.
Proof.
  pose (ok := λ l, {| status_code := 200; body := Some (JArray l) |}).
  pose (page1 := [[a_source_branch "feat-1"; a_iid (Some "1")]]).
  pose (page2 := [[a_source_branch "feat-2"; a_iid (Some "2")]]).
  eexists. split.
  - exact (proj1 (get_merge_request_first_match "origin" "feat-2"
             (example_world [Resp (ok page1); Resp (ok page2); Resp (ok [])])
             [page1; page2] [ok page1; ok page2] (ok []) []
             ltac:(by repeat constructor) ltac:(by repeat constructor)
             ltac:(repeat constructor; by eexists) eq_refl ltac:(by split))).
  - reflexivity.
Defined.

Lemma collect_from_items_missing_key (remote branch : string)
    (items : list json_data) : ∀ mrs w,
  Exists (λ d, lookup_source_branch d = None) items →
  collect_from_items remote branch items mrs w
  = (Raised (KeyError "source_branch"), w).
Proof.
  induction items as [|d items IH]; intros mrs w Hex.
  - by apply Exists_nil in Hex.
  - cbn [collect_from_items]. unfold getitem_source_branch, mbind, prog_bind.
    destruct (lookup_source_branch d) as [sb|] eqn:Hd; [|done].
    apply Exists_cons in Hex as [Hex|Hex]; [congruence|].
    cbn [mret prog_ret]. destruct (startswith sb branch).
    + rewrite init_hydrates by by eexists. by apply IH.
    + by apply IH.
Qed.

(** X16. A listed object without the key [source_branch] makes
    [get_all_merge_requests] raise [KeyError]: no list is returned, not even
    of the MRs listed before that object. *)
Theorem get_all_merge_requests_missing_key (remote branch : string) (w : world)
    (bodies : list (list json_data)) (pages : list response) (last : response)
    (rest : list reply) :
  Forall2 page_of bodies pages →
  Forall (λ l, l ≠ []) bodies →
  Exists (λ d, lookup_source_branch d = None) (mjoin bodies) →
  pending w = (Resp <$> pages) ++ Resp last :: rest →
  page_of [] last →
  get_all_merge_requests remote branch w
  = (Raised (KeyError "source_branch"),
     with_pending rest (emit_all (page_requests w 1 (S (length pages))) w)).
Proof.
  intros Hpages Hne Hex Hp Hlast.
  unfold get_all_merge_requests, mbind, prog_bind.
  rewrite (listing_returns w pages last rest); [|clear -Hpages Hne|done|done].
  - generalize (with_pending rest
                  (emit_all (page_requests w 1 (S (length pages))) w)).
    generalize (@nil MergeRequest). clear -Hpages Hex.
    induction Hpages as [|l r bodies pages [Hst Hb] _ IH]; intros mrs w'.
    + by apply Exists_nil in Hex.
    + cbn [collect_from_pages]. unfold json_of, page_items, mbind, prog_bind.
      rewrite Hb. cbn [mret prog_ret].
      destruct (decide (Exists (λ d, lookup_source_branch d = None) l)) as [Hl|Hl].
      * by rewrite collect_from_items_missing_key.
      * simpl in Hex. apply Exists_app in Hex as [Hex|Hex]; [done|].
        rewrite collect_from_items_run.
        -- by apply IH.
        -- apply not_Exists_Forall in Hl; [|intros ?; apply _].
           eapply Forall_impl; [exact Hl|]. intros d Hd. simpl in Hd.
           by destruct (lookup_source_branch d).
  - induction Hpages as [|l r bodies pages Hlr _ IH]; [done|].
    apply Forall_cons in Hne as [Hl Hne]. constructor; [|by apply IH].
    by eapply page_of_nonempty.
Qed.

(** [get_all_merge_requests_missing_key] on a second object without the key. *)
Lemma get_all_merge_requests_missing_key_witness :
  ∃ w',
    get_all_merge_requests "origin" "feat"
      (example_world
         [Resp {| status_code := 200;
                  body := Some (JArray [[a_source_branch "feat-1"];
                                        [a_iid (Some "2")]]) |};
          Resp {| status_code := 200; body := Some (JArray []) |}])
    = (Raised (KeyError "source_branch"), w').
Proof.
  pose (ok := λ l, {| status_code := 200; body := Some (JArray l) |}).
  pose (page1 := [[a_source_branch "feat-1"]; [a_iid (Some "2")]]).
  eexists.
  exact (get_all_merge_requests_missing_key "origin" "feat"
           (example_world [Resp (ok page1); Resp (ok [])])
           [page1] [ok page1] (ok []) []
           ltac:(by repeat constructor) ltac:(by repeat constructor)
           ltac:(by right; left) eq_refl ltac:(by split)).
Defined.
